(** * PCease build engine: pricing, compatibility, recommendation, search

    A shallow embedding of the engine functions of [src/shared/api.js]
    (and of the share-link code of the Builder page) together with the
    properties the specification states about them.  The second part of
    the definitions covers the filters, the state updates of the
    Builder and Browse pages and the figures of the Home page, with
    further properties of the code at the end of the file.

    Conventions of the embedding.
    - A JavaScript string is the list of its UTF-16 code units.
    - A number of the catalog is held as the exact rational ([Q]) it
      denotes, and comparisons of such numbers are exact.  The budget
      and its products are binary64 values (primitive floats), computed
      with the rounding of the language.  The products formed by the
      power check are exact in binary64 (see the end of the file).
      Integers produced by [parseInt] and [Math.ceil] are kept in [Z].
    - [String.prototype.toLowerCase] and the conversion of a number to
      text rest on tables and algorithms of the runtime; the functions
      that call them take them as a parameter.
    - [null] / [undefined] / an absent property is [None].
    - A promise is a term of the free monad [Async] over [fetch]. *)

From Stdlib Require Import QArith Qminmax Qround ZArith NArith List String Ascii Bool.
From Stdlib Require Import DecimalString Permutation Sorted Lia Lqa.
From Stdlib Require PrimFloat SpecFloat FloatOps DecimalPos.
Import ListNotations.
Open Scope Q_scope.

(* ================================================================== *)
(** * Strings *)

Definition jsstring := list N.

(** A string literal of the source, as code units. *)
Definition lit (s : string) : jsstring :=
  map N_of_ascii (list_ascii_of_string s).

(* ================================================================== *)
(** * Data model *)

Inductive Category :=
  CPU | Motherboard | RAM | GPU | Storage | PSU | PcCase | Monitor.

(** The value of [c.category] as the catalog spells it. *)
Definition category_name (k : Category) : jsstring :=
  match k with
  | CPU => lit "cpu" | Motherboard => lit "motherboard" | RAM => lit "ram"
  | GPU => lit "gpu" | Storage => lit "storage" | PSU => lit "psu"
  | PcCase => lit "pcCase" | Monitor => lit "monitor"
  end.

Definition Category_eqb (a b : Category) : bool :=
  match a, b with
  | CPU, CPU | Motherboard, Motherboard | RAM, RAM | GPU, GPU
  | Storage, Storage | PSU, PSU | PcCase, PcCase | Monitor, Monitor => true
  | _, _ => false
  end.

(** One retailer's listing.  An absent [price] behaves like [0] in every
    engine function ([undefined > 0] is false), so it is stored as [0]. *)
Record Vendor := mkVendor {
  vname   : jsstring;
  url     : jsstring;
  price   : Q;
  inStock : option bool;
  stock   : option bool
}.

(** A catalog entry.  [type'] is the property [type] of a RAM module;
    [wattage] holds the text [parseInt] sees (a numeric wattage is seen
    through its decimal rendering). *)
Record Component := mkComponent {
  id       : jsstring;
  category : Category;
  name     : jsstring;
  brand    : jsstring;
  socket   : option jsstring;
  type'    : option jsstring;
  ramType  : option jsstring;
  wattage  : option jsstring;
  vendors  : option (list Vendor)
}.

(** [currentBuild]: the eight slots, each a component or [null]. *)
Record Build := mkBuild {
  cpu         : option Component;
  motherboard : option Component;
  ram         : option Component;
  gpu         : option Component;
  storage     : option Component;
  psu         : option Component;
  pcCase      : option Component;
  monitor     : option Component
}.

(* ================================================================== *)
(** * Pricing resolver *)

Definition Qltb (x y : Q) : bool := negb (Qle_bool y x).

(** Truthiness of a boolean property that may be absent. *)
Definition truthy (b : option bool) : bool :=
  match b with Some true => true | _ => false end.

(** The filter callback [v => v.inStock && v.price > 0]. *)
Definition eligible (v : Vendor) : bool :=
  truthy (inStock v) && Qltb 0 (price v).

(** [Math.min(x, ...xs)]. *)
Definition Math_min (x : Q) (xs : list Q) : Q := fold_left Qmin xs x.

(** [component.vendors] read as a sequence, empty when absent. *)
Definition offers (c : Component) : list Vendor :=
  match vendors c with Some vs => vs | None => [] end.

Definition getLowestPrice (component : Component) : option Q :=
  match vendors component with
  | None | Some [] => None
  | Some vs =>
      let prices := map price (filter eligible vs) in
      match prices with
      | [] => None
      | p :: ps => Some (Math_min p ps)
      end
  end.

(** The reducer [(best, v) => v.price < best.price ? v : best]. *)
Definition cheaper (best v : Vendor) : Vendor :=
  if Qltb (price v) (price best) then v else best.

Definition getBestVendor (component : Component) : option Vendor :=
  match vendors component with
  | None | Some [] => None
  | Some vs =>
      let inStock := filter eligible vs in
      match inStock with
      | [] => None
      | b :: rest => Some (fold_left cheaper rest b)
      end
  end.

(** [calculateBuildTotal]: the slots in key order, empty ones dropped. *)
Definition slots (b : Build) : list (option Component) :=
  [cpu b; motherboard b; ram b; gpu b; storage b; psu b; pcCase b; monitor b].

Definition calculateBuildTotal (selectedComponents : Build) : Q :=
  fold_left
    (fun sum s =>
       match s with
       | Some comp =>
           sum + match getLowestPrice comp with Some p => p | None => 0 end
       | None => sum
       end)
    (slots selectedComponents) 0.

(* ================================================================== *)
(** * String operations of the engine *)

Fixpoint jsstring_eqb (a b : jsstring) : bool :=
  match a, b with
  | [], [] => true
  | x :: a', y :: b' => (x =? y)%N && jsstring_eqb a' b'
  | _, _ => false
  end.

(** [s.startsWith(p)]. *)
Fixpoint startsWith (s p : jsstring) : bool :=
  match p, s with
  | [], _ => true
  | x :: p', y :: s' => (x =? y)%N && startsWith s' p'
  | _ :: _, [] => false
  end.

(** [s.includes(p)]. *)
Fixpoint includes (s p : jsstring) : bool :=
  startsWith s p ||
  match s with
  | [] => false
  | _ :: r => includes r p
  end.

(** [s.replace(pat, rep)] with a string pattern: the first occurrence. *)
Fixpoint replace (s pat rep : jsstring) : jsstring :=
  if startsWith s pat then rep ++ skipn (List.length pat) s
  else match s with
       | [] => []
       | u :: r => u :: replace r pat rep
       end.

(** The code units matched by [\s] (WhiteSpace and LineTerminator). *)
Definition is_white_space (u : N) : bool :=
  existsb (N.eqb u)
    [9; 10; 11; 12; 13; 32; 160; 5760; 8232; 8233; 8239; 8287; 12288; 65279]%N
  || ((8192 <=? u) && (u <=? 8202))%N.

(** [s.split(/\s+/)]: [skipping] is true while a separator run is being
    consumed; [acc] holds the current piece, reversed. *)
Fixpoint split_ws_from (acc : jsstring) (skipping : bool) (s : jsstring)
  : list jsstring :=
  match s with
  | [] => [rev acc]
  | u :: r =>
      if is_white_space u then
        if skipping then split_ws_from acc true r
        else rev acc :: split_ws_from [] true r
      else split_ws_from (u :: acc) false r
  end.

Definition split_ws (s : jsstring) : list jsstring := split_ws_from [] false s.

(** A value interpolated in a template literal. *)
Definition tpl (o : option jsstring) : jsstring :=
  match o with Some s => s | None => lit "undefined" end.

(** Decimal rendering of an integer, as [String(n)] gives it. *)
Definition Z_to_jsstring (z : Z) : jsstring :=
  lit (NilEmpty.string_of_int (Z.to_int z)).

(** ** [parseInt] *)

Fixpoint trimStart (s : jsstring) : jsstring :=
  match s with
  | u :: r => if is_white_space u then trimStart r else s
  | [] => []
  end.

Definition digit_value (radix : Z) (u : N) : option Z :=
  let d :=
    if ((48 <=? u) && (u <=? 57))%N then Some (Z.of_N u - 48)%Z
    else if ((97 <=? u) && (u <=? 122))%N then Some (Z.of_N u - 87)%Z
    else if ((65 <=? u) && (u <=? 90))%N then Some (Z.of_N u - 55)%Z
    else None in
  match d with
  | Some v => if (v <? radix)%Z then Some v else None
  | None => None
  end.

(** The longest prefix of radix digits, as an integer; [None] is [NaN]. *)
Fixpoint parse_digits (radix : Z) (acc : option Z) (s : jsstring) : option Z :=
  match s with
  | [] => acc
  | u :: r =>
      match digit_value radix u with
      | Some d =>
          parse_digits radix
            (Some (radix * match acc with Some a => a | None => 0 end + d)%Z) r
      | None => acc
      end
  end.

(** [parseInt(x)], no radix given; [None] is [NaN]. *)
Definition parseInt (x : option jsstring) : option Z :=
  let inputString := tpl x in
  let trimmed := trimStart inputString in
  let '(sign, unsigned) :=
    match trimmed with
    | 45%N :: r => ((-1)%Z, r)
    | 43%N :: r => (1%Z, r)
    | _ => (1%Z, trimmed)
    end in
  let '(radix, digits) :=
    match unsigned with
    | 48%N :: 120%N :: r => (16%Z, r)
    | 48%N :: 88%N :: r => (16%Z, r)
    | _ => (10%Z, unsigned)
    end in
  option_map (Z.mul sign) (parse_digits radix None digits).

Definition Math_ceil (q : Q) : Z := Qceiling q.

(* ================================================================== *)
(** * Compatibility checker *)

Inductive WarningType := socket_type | ram_type | power_type.
Inductive Severity := Error | Warning.

Record Finding := mkFinding {
  type     : WarningType;
  severity : Severity;
  message  : jsstring
}.

Record Compatibility := mkCompatibility {
  isCompatible : bool;
  hasWarnings  : bool;
  warnings     : list Finding
}.

Definition is_error (w : Finding) : bool :=
  match severity w with Error => true | Warning => false end.

Definition nonempty (s : jsstring) : bool :=
  match s with [] => false | _ => true end.

Section Checker.

(** [String.prototype.toLowerCase]: the case mapping of the Unicode
    standard, which the runtime supplies. *)
Variable toLowerCase : jsstring -> jsstring.

(** [x?.toLowerCase() || ''] *)
Definition lower_or_empty (o : option jsstring) : jsstring :=
  match o with Some s => toLowerCase s | None => [] end.

Definition socket_check (build : Build) : list Finding :=
  match cpu build, motherboard build with
  | Some c, Some m =>
      let cpuSocket := lower_or_empty (socket c) in
      let mbSocket := lower_or_empty (socket m) in
      if nonempty cpuSocket && nonempty mbSocket
         && negb (jsstring_eqb cpuSocket mbSocket)
      then [ {| type := socket_type; severity := Error;
                message := lit "CPU socket (" ++ tpl (socket c)
                           ++ lit ") doesn't match motherboard ("
                           ++ tpl (socket m) ++ lit ")" |} ]
      else []
  | _, _ => []
  end.

Definition ram_check (build : Build) : list Finding :=
  match ram build, motherboard build with
  | Some r, Some m =>
      let ramTy := lower_or_empty (type' r) in
      let mbRam := lower_or_empty (ramType m) in
      if nonempty ramTy && nonempty mbRam
         && negb (includes mbRam (replace ramTy (lit "ddr") (lit "ddr")))
      then [ {| type := ram_type; severity := Warning;
                message := lit "RAM type (" ++ tpl (type' r)
                           ++ lit ") may not be compatible with motherboard" |} ]
      else []
  | _, _ => []
  end.

(** [parseInt(build.psu.wattage) || 0] *)
Definition psuWattage_of (p : Component) : Z :=
  match parseInt (wattage p) with Some z => z | None => 0%Z end.

Definition estimatedPower (build : Build) : Z :=
  ((match cpu build with Some _ => 125 | None => 0 end)
   + (match gpu build with Some _ => 250 | None => 0 end)
   + 100)%Z.

Definition power_check (build : Build) : list Finding :=
  match psu build with
  | Some p =>
      let psuWattage := psuWattage_of p in
      let estimated := estimatedPower build in
      if (0 <? psuWattage)%Z
         && Qltb (inject_Z psuWattage) (inject_Z estimated * 1.2)
      then [ {| type := power_type; severity := Warning;
                message := lit "PSU (" ++ Z_to_jsstring psuWattage
                           ++ lit "W) may be insufficient. Recommended: "
                           ++ Z_to_jsstring (Math_ceil (inject_Z estimated * 1.3))
                           ++ lit "W+" |} ]
      else []
  | None => []
  end.

Definition checkCompatibility (build : Build) : Compatibility :=
  let found := socket_check build ++ ram_check build ++ power_check build in
  {| isCompatible := negb (existsb is_error found);
     hasWarnings := (0 <? List.length found)%nat;
     warnings := found |}.

End Checker.

(* ================================================================== *)
(** * Arrays *)

(** [Array.prototype.sort(compareFn)].  The language requires the sort
    to be stable, so for a consistent comparator the result is the one
    of an insertion sort: [x] moves right past [y] only when
    [compareFn(x, y) > 0]. *)
Fixpoint insert {A : Type} (compareFn : A -> A -> Q) (x : A) (l : list A)
  : list A :=
  match l with
  | [] => [x]
  | y :: r =>
      if Qltb 0 (compareFn x y) then y :: insert compareFn x r else x :: l
  end.

Definition sort {A : Type} (compareFn : A -> A -> Q) (l : list A) : list A :=
  fold_right (insert compareFn) [] l.

(* ================================================================== *)
(** * Promises and the network *)

Inductive Settled (A : Type) : Type :=
| Fulfilled (a : A)
| Rejected (reason : jsstring).
Arguments Fulfilled {A} a.
Arguments Rejected {A} reason.

(** What the engine reads of a [fetch] response: [res.ok], the
    [content-type] header and the outcome of [res.json()] ([None] when
    the body is not a JSON list of components). *)
Record Response := mkResponse {
  ok           : bool;
  content_type : option jsstring;
  body         : option (list Component)
}.

(** An asynchronous computation: it returns, throws, awaits a [fetch]
    or writes to the console and goes on. *)
Inductive Async (A : Type) : Type :=
| Return (a : A)
| Throw (reason : jsstring)
| Await_fetch (url : jsstring) (k : Settled Response -> Async A)
| Console_warn (msg : jsstring) (k : Async A).
Arguments Return {A} a.
Arguments Throw {A} reason.
Arguments Await_fetch {A} url k.
Arguments Console_warn {A} msg k.

Fixpoint bind {A B : Type} (m : Async A) (f : A -> Async B) : Async B :=
  match m with
  | Return a => f a
  | Throw e => Throw e
  | Await_fetch u k => Await_fetch u (fun r => bind (k r) f)
  | Console_warn s k => Console_warn s (bind k f)
  end.

Notation "x <- m ;; k" := (bind m (fun x => k))
  (at level 61, m at next level, right associativity).

(** [try { m } catch (err) { handler }] *)
Fixpoint try_catch {A : Type} (m : Async A) (handler : jsstring -> Async A)
  : Async A :=
  match m with
  | Return a => Return a
  | Throw e => handler e
  | Await_fetch u k => Await_fetch u (fun r => try_catch (k r) handler)
  | Console_warn s k => Console_warn s (try_catch k handler)
  end.

(** [await fetch(url)]: a rejected promise is thrown at the [await]. *)
Definition fetch (url : jsstring) : Async Response :=
  Await_fetch url
    (fun r => match r with Fulfilled res => Return res | Rejected e => Throw e end).

(** [res.json()], a promise of its own. *)
Definition json (res : Response) : Async (list Component) :=
  match body res with
  | Some l => Return l
  | None => Throw (lit "SyntaxError")
  end.

(** The network as the page sees it, and a run of a computation on it.
    Console output is dropped. *)
Definition Network := jsstring -> Settled Response.

Fixpoint run {A : Type} (net : Network) (m : Async A) : Settled A :=
  match m with
  | Return a => Fulfilled a
  | Throw e => Rejected e
  | Await_fetch u k => run net (k (net u))
  | Console_warn _ k => run net k
  end.

(** The URLs a computation fetches on a network, in order. *)
Fixpoint fetched {A : Type} (net : Network) (m : Async A) : list jsstring :=
  match m with
  | Return _ | Throw _ => []
  | Await_fetch u k => u :: fetched net (k (net u))
  | Console_warn _ k => fetched net k
  end.

(** A computation that is a value already: no [fetch], no console. *)
Definition performs_no_io {A : Type} (m : Async A) : Prop :=
  exists a, m = Return a.

(* ================================================================== *)
(** * Catalog index *)

Definition CatalogIndex := list (Category * list Component).

Fixpoint lookup {V : Type} (m : list (Category * V)) (k : Category) : option V :=
  match m with
  | [] => None
  | (k', v) :: r => if Category_eqb k' k then Some v else lookup r k
  end.

(** [if (!grouped[c.category]) grouped[c.category] = [];
     grouped[c.category].push(c)] *)
Fixpoint push_grouped (grouped : CatalogIndex) (c : Component) : CatalogIndex :=
  match grouped with
  | [] => [(category c, [c])]
  | (k, l) :: r =>
      if Category_eqb k (category c) then (k, l ++ [c]) :: r
      else (k, l) :: push_grouped r c
  end.

(** [obj[k] = v]: an existing key keeps its place, a new one goes last. *)
Fixpoint assign {V : Type} (obj : list (Category * V)) (k : Category) (v : V)
  : list (Category * V) :=
  match obj with
  | [] => [(k, v)]
  | (k', v') :: r =>
      if Category_eqb k' k then (k', v) :: r else (k', v') :: assign r k v
  end.

(** The loop of [getComponentsStructured] over the fetched list. *)
Definition grouped_by_category (list : list Component) : CatalogIndex :=
  fold_left push_grouped list [].

Section Catalog.

(** [import.meta.env.VITE_API_URL || "/api"] *)
Variable API_URL : jsstring.

(** The promise returned from inside [try] is not awaited there, so
    the [try] block yields the promise and only the [fetch] and the
    [throw] are in the scope of [catch]. *)
Definition getComponents : Async (list Component) :=
  p <- try_catch
         (res <- fetch (API_URL ++ lit "/components") ;;
          let contentType :=
            match content_type res with Some s => s | None => [] end in
          if negb (ok res)
             || negb (includes contentType (lit "application/json"))
          then Throw (lit "API unavailable")
          else Return (json res))
         (fun err =>
            Console_warn (lit "Using local components data: " ++ err)
              (fallbackRes <- fetch (lit "/backend_components.json") ;;
               if negb (ok fallbackRes)
               then Throw (lit "Failed to load components")
               else Return (json fallbackRes))) ;;
  p.

Definition getComponentsStructured : Async CatalogIndex :=
  list <- getComponents ;;
  Return (grouped_by_category list).

End Catalog.

(* ================================================================== *)
(** * Build advisor *)

(** [{ ...c, lowestPrice: getLowestPrice(c) }] *)
Record Recommended := mkRecommended {
  component   : Component;
  lowestPrice : option Q
}.

(** A number read from a value that may be [null]: [null] counts as 0
    in arithmetic and comparisons. *)
Definition number (o : option Q) : Q :=
  match o with Some q => q | None => 0 end.

(** Truthiness of a number that may be [null]. *)
Definition truthy_number (o : option Q) : bool :=
  match o with Some q => negb (Qeq_bool q 0) | None => false end.

(** [x <= t] for a number [x] of the catalog and a binary64 [t]: false
    against [NaN], decided by the sign against an infinity, and exact
    against a finite value [m * 2^e]. *)
Definition Q_of_finite (negative : bool) (m : positive) (e : Z) : Q :=
  (if negative then - inject_Z (Z.pos m) else inject_Z (Z.pos m)) * 2 ^ e.

Definition Qle_float (x : Q) (t : PrimFloat.float) : bool :=
  match FloatOps.Prim2SF t with
  | SpecFloat.S754_nan => false
  | SpecFloat.S754_infinity negative => negb negative
  | SpecFloat.S754_zero _ => Qle_bool x 0
  | SpecFloat.S754_finite negative m e => Qle_bool x (Q_of_finite negative m e)
  end.

Section Advisor.
Import PrimFloat.

(** The three presets, with the binary64 values of their literals. *)
#[warnings="-inexact-float"]
Definition gaming : list (Category * float) :=
  [(CPU, 0.2%float); (GPU, 0.35%float); (Motherboard, 0.12%float);
   (RAM, 0.1%float); (Storage, 0.08%float); (PSU, 0.08%float);
   (PcCase, 0.07%float)].

#[warnings="-inexact-float"]
Definition productivity : list (Category * float) :=
  [(CPU, 0.3%float); (GPU, 0.2%float); (Motherboard, 0.12%float);
   (RAM, 0.15%float); (Storage, 0.1%float); (PSU, 0.07%float);
   (PcCase, 0.06%float)].

#[warnings="-inexact-float"]
Definition general : list (Category * float) :=
  [(CPU, 0.25%float); (GPU, 0.25%float); (Motherboard, 0.12%float);
   (RAM, 0.12%float); (Storage, 0.1%float); (PSU, 0.08%float);
   (PcCase, 0.08%float)].

(** Names every object literal inherits: [allocations[useCase]] finds a
    truthy value with no entries of its own for them. *)
Definition inherited_names : list jsstring :=
  map lit
    ["constructor"; "__defineGetter__"; "__defineSetter__"; "hasOwnProperty";
     "__lookupGetter__"; "__lookupSetter__"; "isPrototypeOf";
     "propertyIsEnumerable"; "toString"; "valueOf"; "__proto__";
     "toLocaleString"]%string.

(** [Object.entries(allocations[useCase] || allocations.general)] *)
Definition alloc_entries (useCase : jsstring) : list (Category * float) :=
  if jsstring_eqb useCase (lit "gaming") then gaming
  else if jsstring_eqb useCase (lit "productivity") then productivity
  else if jsstring_eqb useCase (lit "general") then general
  else if existsb (jsstring_eqb useCase) inherited_names then []
  else general.

(** [categoryBudget * 1.15] with [categoryBudget = budget * percentage],
    both products rounded to binary64. *)
#[warnings="-inexact-float"]
Definition ceiling (budget percentage : float) : float :=
  let categoryBudget := mul budget percentage in
  mul categoryBudget 1.15%float.

(** The chain [components.map(..).filter(..).sort(..)] of one category.
    The comparator of the sort is used for its sign only, and the sign
    of the binary64 difference of two binary64 values is the sign of
    their exact difference. *)
Definition with_lowestPrice (c : Component) : Recommended :=
  {| component := c; lowestPrice := getLowestPrice c |}.

Definition within (limit : float) (c : Recommended) : bool :=
  truthy_number (lowestPrice c) && Qle_float (number (lowestPrice c)) limit.

Definition by_price_desc (a b : Recommended) : Q :=
  number (lowestPrice b) - number (lowestPrice a).

(** [db[category] || []] *)
Definition components_of (db : CatalogIndex) (category : Category)
  : list Component :=
  match lookup db category with Some l => l | None => [] end.

Definition affordable (db : CatalogIndex) (budget : float)
  (category : Category) (percentage : float) : list Recommended :=
  let components := components_of db category in
  sort by_price_desc
    (filter (within (ceiling budget percentage))
       (map with_lowestPrice components)).

(** The survivors of a category: the components of the catalog in that
    category whose lowest eligible price exists and is at most the
    ceiling as the page computes it. *)
Definition survivor (limit : float) (c : Component) : bool :=
  match getLowestPrice c with
  | Some p => Qle_float p limit
  | None => false
  end.

Definition survivors (catalog : list Component) (budget : float)
  (k : Category) (fraction : float) : list Component :=
  filter (survivor (ceiling budget fraction))
    (filter (fun c => Category_eqb (category c) k) catalog).

Definition Recommendations := list (Category * Recommended).

(** One turn of the loop over [Object.entries(alloc)]. *)
Definition pick (db : CatalogIndex) (budget : float)
  (recommendations : Recommendations) (entry : Category * float)
  : Recommendations :=
  let '(category, percentage) := entry in
  match affordable db budget category percentage with
  | best :: _ => assign recommendations category best
  | [] => recommendations
  end.

(** The body of [getRecommendedBuild] after the catalog has arrived. *)
Definition recommend (db : CatalogIndex) (budget : float) (useCase : jsstring)
  : Recommendations :=
  fold_left (pick db budget) (alloc_entries useCase) [].

(** [getRecommendedBuild(budget, useCase = 'gaming', performance = 'balanced')];
    an argument left out is [None]. *)
Definition getRecommendedBuild (API_URL : jsstring)
  (budget : float) (useCase performance : option jsstring)
  : Async Recommendations :=
  db <- getComponentsStructured API_URL ;;
  let useCase := match useCase with Some u => u | None => lit "gaming" end in
  Return (recommend db budget useCase).

End Advisor.

(* ================================================================== *)
(** * Search *)

Section Search.

(** [String.prototype.toLowerCase], as in the compatibility checker. *)
Variable toLowerCase : jsstring -> jsstring.

(** [`${c.name} ${c.brand} ${c.category}`.toLowerCase()] *)
Definition searchText (c : Component) : jsstring :=
  toLowerCase
    (name c ++ lit " " ++ brand c ++ lit " " ++ category_name (category c)).

Definition matches_terms (terms : list jsstring) (c : Component) : bool :=
  forallb (fun term => includes (searchText c) term) terms.

(** [a.name.toLowerCase().includes(query.toLowerCase())] *)
Definition exact (query : jsstring) (a : Component) : bool :=
  includes (toLowerCase (name a)) (toLowerCase query).

Definition exact_first (query : jsstring) (a b : Component) : Q :=
  let aExact := exact query a in
  let bExact := exact query b in
  if aExact && negb bExact then -1
  else if negb aExact && bExact then 1
  else 0.

Definition fuzzySearch (query : jsstring) (components : list Component)
  : list Component :=
  match query with
  | [] => components
  | _ =>
      let terms := split_ws (toLowerCase query) in
      sort (exact_first query) (filter (matches_terms terms) components)
  end.

End Search.

(* ================================================================== *)
(** * Share links: [JSON.stringify] and [btoa] *)

#[warnings="-register-all"]
Inductive JSON : Type :=
| JNull
| JBool (b : bool)
| JNumber (q : Q)
| JString (s : jsstring)
| JArray (l : list JSON)
| JObject (l : list (jsstring * JSON)).

Definition digit_unit (n : N) : N :=
  (if n <? 10 then 48 + n else 87 + n)%N.

(** [\uXXXX], lower-case hexadecimal. *)
Definition unicode_escape (u : N) : jsstring :=
  [92; 117; digit_unit (u / 4096 mod 16); digit_unit (u / 256 mod 16);
   digit_unit (u / 16 mod 16); digit_unit (u mod 16)]%N.

Definition is_high_surrogate (u : N) : bool := ((55296 <=? u) && (u <=? 56319))%N.
Definition is_low_surrogate (u : N) : bool := ((56320 <=? u) && (u <=? 57343))%N.

(** One code unit that is not part of a surrogate pair. *)
Definition quote_unit (u : N) : jsstring :=
  (if u =? 8 then [92; 98]
   else if u =? 9 then [92; 116]
   else if u =? 10 then [92; 110]
   else if u =? 12 then [92; 102]
   else if u =? 13 then [92; 114]
   else if u =? 34 then [92; 34]
   else if u =? 92 then [92; 92]
   else if (u <? 32) || is_high_surrogate u || is_low_surrogate u
        then unicode_escape u
   else [u])%N.

Fixpoint quote_units (s : jsstring) : jsstring :=
  match s with
  | [] => []
  | u :: r =>
      match r with
      | l :: r' =>
          if is_high_surrogate u && is_low_surrogate l
          then u :: l :: quote_units r'
          else quote_unit u ++ quote_units r
      | [] => quote_unit u
      end
  end.

(** [QuoteJSONString] *)
Definition quote (s : jsstring) : jsstring := 34%N :: quote_units s ++ [34%N].

Fixpoint join (sep : jsstring) (l : list jsstring) : jsstring :=
  match l with
  | [] => []
  | [x] => x
  | x :: r => x ++ sep ++ join sep r
  end.

Section Serialization.

(** The text of a number ([Number::toString]), which the runtime
    supplies. *)
Variable Number_toString : Q -> jsstring.

Fixpoint JSON_stringify (v : JSON) : jsstring :=
  match v with
  | JNull => lit "null"
  | JBool true => lit "true"
  | JBool false => lit "false"
  | JNumber q => Number_toString q
  | JString s => quote s
  | JArray l => lit "[" ++ join (lit ",") (map JSON_stringify l) ++ lit "]"
  | JObject l =>
      lit "{"
      ++ join (lit ",")
           (map (fun kv => quote (fst kv) ++ lit ":" ++ JSON_stringify (snd kv)) l)
      ++ lit "}"
  end.

(** The own properties of the values of a build, in record order; an
    absent property is left out. *)
Definition prop_string (k : string) (o : option jsstring) : list (jsstring * JSON) :=
  match o with Some s => [(lit k, JString s)] | None => [] end.

Definition prop_bool (k : string) (o : option bool) : list (jsstring * JSON) :=
  match o with Some b => [(lit k, JBool b)] | None => [] end.

Definition Vendor_json (v : Vendor) : JSON :=
  JObject
    ([(lit "name", JString (vname v)); (lit "url", JString (url v));
      (lit "price", JNumber (price v))]
     ++ prop_bool "inStock" (inStock v) ++ prop_bool "stock" (stock v)).

Definition Component_json (c : Component) : JSON :=
  JObject
    ([(lit "id", JString (id c));
      (lit "category", JString (category_name (category c)));
      (lit "name", JString (name c)); (lit "brand", JString (brand c))]
     ++ prop_string "socket" (socket c) ++ prop_string "type" (type' c)
     ++ prop_string "ramType" (ramType c) ++ prop_string "wattage" (wattage c)
     ++ match vendors c with
        | Some vs => [(lit "vendors", JArray (map Vendor_json vs))]
        | None => []
        end).

Definition slot_json (s : option Component) : JSON :=
  match s with Some c => Component_json c | None => JNull end.

Definition Build_json (b : Build) : JSON :=
  JObject
    [(lit "cpu", slot_json (cpu b)); (lit "motherboard", slot_json (motherboard b));
     (lit "ram", slot_json (ram b)); (lit "gpu", slot_json (gpu b));
     (lit "storage", slot_json (storage b)); (lit "psu", slot_json (psu b));
     (lit "pcCase", slot_json (pcCase b)); (lit "monitor", slot_json (monitor b))].

Definition base64_unit (n : N) : N :=
  (if n <? 26 then 65 + n
   else if n <? 52 then 71 + n
   else if n <? 62 then n - 4
   else if n =? 62 then 43
   else 47)%N.

Fixpoint base64_encode (bytes : list N) : jsstring :=
  match bytes with
  | [] => []
  | [a] =>
      [base64_unit (a / 4); base64_unit (a mod 4 * 16); 61; 61]%N
  | [a; b] =>
      [base64_unit (a / 4); base64_unit (a mod 4 * 16 + b / 16);
       base64_unit (b mod 16 * 4); 61]%N
  | a :: b :: c :: r =>
      [base64_unit (a / 4); base64_unit (a mod 4 * 16 + b / 16);
       base64_unit (b mod 16 * 4 + c / 64); base64_unit (c mod 64)]%N
      ++ base64_encode r
  end.

(** [btoa(s)]: [None] is the [InvalidCharacterError] thrown when a code
    unit is above U+00FF. *)
Definition btoa (s : jsstring) : option jsstring :=
  if forallb (fun u => (u <=? 255)%N) s then Some (base64_encode s) else None.

(** [shareBuild]: the link put on the clipboard, [None] when [btoa]
    throws and nothing is copied. *)
Definition shareBuild (origin : jsstring) (currentBuild : Build)
  : option jsstring :=
  match btoa (JSON_stringify (Build_json currentBuild)) with
  | Some encoded => Some (origin ++ lit "/builder?build=" ++ encoded)
  | None => None
  end.

End Serialization.

(* ================================================================== *)
(** * Vocabulary of the specification *)

(** [p] occurs in [s] as a contiguous run. *)
Definition substring (p s : jsstring) : Prop :=
  exists before after, s = before ++ p ++ after.

Definition no_space (t : jsstring) : Prop :=
  forall u, In u t -> is_white_space u = false.

(** The text before a token is empty or ends with white space; the text
    after it is empty or starts with white space. *)
Definition ends_with_space (s : jsstring) : Prop :=
  match rev s with [] => True | u :: _ => is_white_space u = true end.

Definition starts_with_space (s : jsstring) : Prop :=
  match s with [] => True | u :: _ => is_white_space u = true end.

(** A whitespace-separated token of [query]: a maximal non-empty run of
    code units that are not white space. *)
Definition is_token (query t : jsstring) : Prop :=
  t <> [] /\ no_space t
  /\ exists before after,
       query = before ++ t ++ after
       /\ ends_with_space before /\ starts_with_space after.

(* ================================================================== *)
(** * Sample data *)

Definition offer (p : Q) (available : bool) : Vendor :=
  {| vname := lit "Shop"; url := lit "https://shop.example/item";
     price := p; inStock := Some available; stock := None |}.

(** An offer whose availability is given through [stock] only. *)
Definition legacy_offer (p : Q) : Vendor :=
  {| vname := lit "Shop"; url := lit "https://shop.example/item";
     price := p; inStock := None; stock := Some true |}.

Definition part (k : Category) (nm br : jsstring) (sock wat : option jsstring)
  (vs : list Vendor) : Component :=
  {| id := nm; category := k; name := nm; brand := br; socket := sock;
     type' := None; ramType := None; wattage := wat; vendors := Some vs |}.

Definition empty_build : Build :=
  {| cpu := None; motherboard := None; ram := None; gpu := None;
     storage := None; psu := None; pcCase := None; monitor := None |}.

Definition ryzen : Component :=
  part CPU (lit "Ryzen 5 7600") (lit "AMD") (Some (lit "AM5")) None
    [offer 28000 true].
Definition core_i7 : Component :=
  part CPU (lit "Core i7") (lit "Intel") (Some (lit "LGA1700")) None
    [offer 35000 true].
Definition board_lga : Component :=
  part Motherboard (lit "Z790") (lit "MSI") (Some (lit "LGA1700")) None
    [offer 12000 true].
Definition board_am5 : Component :=
  part Motherboard (lit "B650") (lit "MSI") (Some (lit "AM5")) None
    [offer 11000 true].
Definition card : Component :=
  part GPU (lit "RTX 4060") (lit "NVIDIA") None None [offer 25000 true].
Definition supply_300 : Component :=
  part PSU (lit "Basic 300") (lit "Corsair") None (Some (lit "300"))
    [offer 3000 true].
Definition disk : Component :=
  part Storage (lit "SN770") (lit "WD") None None [offer 5000 true].

(** The example of the specification: three offers, only the second
    eligible. *)
Definition three_offers : Component :=
  part CPU (lit "Core i5") (lit "Intel") None None
    [offer 5000 false; offer 6000 true; offer 0 true].

Definition legacy_only : Component :=
  part CPU (lit "Core i3") (lit "Intel") None None [legacy_offer 4500].

Definition mismatched_build : Build :=
  {| cpu := Some ryzen; motherboard := Some board_lga; ram := None;
     gpu := None; storage := None; psu := None; pcCase := None;
     monitor := None |}.

Definition underpowered_build : Build :=
  {| cpu := Some ryzen; motherboard := Some board_am5; ram := None;
     gpu := Some card; storage := None; psu := Some supply_300;
     pcCase := None; monitor := None |}.

(** A component whose name holds U+2122 (trade mark sign). *)
Definition trademark_cpu : Component :=
  part CPU (lit "Core" ++ [8482%N] ++ lit " i5") (lit "Intel") None None [].

Definition trademark_build : Build :=
  {| cpu := Some trademark_cpu; motherboard := None; ram := None;
     gpu := None; storage := None; psu := None; pcCase := None;
     monitor := None |}.

Definition json_response (l : list Component) : Response :=
  {| ok := true; content_type := Some (lit "application/json; charset=utf-8");
     body := Some l |}.

(** A network whose API serves [l]. *)
Definition serving (l : list Component) : Network :=
  fun _ => Fulfilled (json_response l).

(** A network whose API is down and whose static file holds [l]. *)
Definition fallback_only (l : list Component) : Network :=
  fun u =>
    if jsstring_eqb u (lit "/backend_components.json")
    then Fulfilled (json_response l)
    else Rejected (lit "Failed to fetch").

Definition two_cpus : list Component := [core_i7; ryzen; board_am5].

Definition tower : Component :=
  part PcCase (lit "H5 Flow") (lit "NZXT") None None [offer 7000 true].
Definition screen : Component :=
  part Monitor (lit "Odyssey G5") (lit "Samsung") None None [offer 21000 true].

(** [underpowered_build] with the three remaining slots filled. *)
Definition underpowered_build_filled : Build :=
  {| cpu := Some ryzen; motherboard := Some board_am5; ram := None;
     gpu := Some card; storage := Some disk; psu := Some supply_300;
     pcCase := Some tower; monitor := Some screen |}.

Definition vengeance_ddr5 : Component :=
  part RAM (lit "Vengeance DDR5 32GB") (lit "Corsair") None None
    [offer 9500 true].
Definition fury_ddr5 : Component :=
  part RAM (lit "Fury Beast DDR5") (lit "Kingston") None None
    [offer 8700 true].
Definition vengeance_ddr4 : Component :=
  part RAM (lit "Vengeance LPX DDR4") (lit "Corsair") None None
    [offer 4200 true].
Definition corsair_supply : Component :=
  part PSU (lit "RM750e") (lit "Corsair") None (Some (lit "750W"))
    [offer 8000 true].

(** [toLowerCase] on strings whose code units are all at most U+00FF:
    there the case mapping works one unit at a time and moves the
    capitals [A]-[Z] and U+00C0-U+00DE (U+00D7 apart) down by 32.  It
    serves to run the engine on such strings; units above U+00FF are
    outside its domain and are returned as they are. *)
Definition latin1_lower_unit (u : N) : N :=
  if ((65 <=? u) && (u <=? 90))%N then (u + 32)%N
  else if ((192 <=? u) && (u <=? 222) && negb (u =? 215))%N then (u + 32)%N
  else u.

Definition latin1_toLowerCase (s : jsstring) : jsstring :=
  map latin1_lower_unit s.

(** A cpu priced on the exact ceiling of the [general] preset for a
    budget of 100000: [100000 * 0.25 * 1.15 = 28750]. *)
Definition edge_cpu : Component :=
  part CPU (lit "Ryzen 7 7700") (lit "AMD") (Some (lit "AM5")) None
    [offer 28750 true].

Definition rtx_asus : Component :=
  part GPU (lit "RTX") (lit "Asus") None None [offer 30000 true].

(* ================================================================== *)
(** * Filters *)

(** The [filters] object of [filterComponents]; an unset field is [None]. *)
Module Filters.
Record t := mk {
  category : option jsstring;
  brand    : option jsstring;
  minPrice : option Q;
  maxPrice : option Q;
  inStock  : option bool
}.
End Filters.

(** [c.category === filters.category] *)
Definition by_category (wanted : jsstring) (c : Component) : bool :=
  jsstring_eqb (category_name (category c)) wanted.

(** [(getLowestPrice(c) || 0) >= filters.minPrice] *)
Definition at_least (minPrice : Q) (c : Component) : bool :=
  Qle_bool minPrice (number (getLowestPrice c)).

(** [price && price <= filters.maxPrice] *)
Definition at_most (maxPrice : Q) (c : Component) : bool :=
  let price := getLowestPrice c in
  truthy_number price && Qle_bool (number price) maxPrice.

(** [c.vendors?.some(v => v.inStock)] *)
Definition some_inStock (c : Component) : bool :=
  match vendors c with
  | Some vs => existsb (fun v => truthy (inStock v)) vs
  | None => false
  end.

(** One step of [filterComponents]: [if (value) result = result.filter(..)],
    where [set] tells whether the field is truthy. *)
Definition narrowed {A : Type} (set : bool) (keep : A -> bool) (result : list A)
  : list A :=
  if set then filter keep result else result.

Section Filtering.

(** [String.prototype.toLowerCase], as in the compatibility checker. *)
Variable toLowerCase : jsstring -> jsstring.

(** [c.brand?.toLowerCase() === filters.brand.toLowerCase()] *)
Definition by_brand (wanted : jsstring) (c : Component) : bool :=
  jsstring_eqb (toLowerCase (brand c)) (toLowerCase wanted).

Definition filterComponents (components : list Component) (filters : Filters.t)
  : list Component :=
  let result := components in
  let result :=
    match Filters.category filters with
    | Some wanted => narrowed (nonempty wanted) (by_category wanted) result
    | None => result
    end in
  let result :=
    match Filters.brand filters with
    | Some wanted => narrowed (nonempty wanted) (by_brand wanted) result
    | None => result
    end in
  let result :=
    match Filters.minPrice filters with
    | Some m => narrowed (truthy_number (Some m)) (at_least m) result
    | None => result
    end in
  let result :=
    match Filters.maxPrice filters with
    | Some m => narrowed (truthy_number (Some m)) (at_most m) result
    | None => result
    end in
  narrowed (truthy (Filters.inStock filters)) some_inStock result.

End Filtering.

(* ================================================================== *)
(** * Builder page: the current build *)

(** [b[category]] *)
Definition slot (b : Build) (k : Category) : option Component :=
  match k with
  | CPU => cpu b | Motherboard => motherboard b | RAM => ram b | GPU => gpu b
  | Storage => storage b | PSU => psu b | PcCase => pcCase b
  | Monitor => monitor b
  end.

(** [{ ...b, [category]: item }] *)
Definition set_slot (b : Build) (k : Category) (item : option Component)
  : Build :=
  {| cpu := match k with CPU => item | _ => cpu b end;
     motherboard := match k with Motherboard => item | _ => motherboard b end;
     ram := match k with RAM => item | _ => ram b end;
     gpu := match k with GPU => item | _ => gpu b end;
     storage := match k with Storage => item | _ => storage b end;
     psu := match k with PSU => item | _ => psu b end;
     pcCase := match k with PcCase => item | _ => pcCase b end;
     monitor := match k with Monitor => item | _ => monitor b end |}.

(** The state update of [addToBuild(category, id)]: the first component
    of the category with that id, [undefined] when there is none. *)
Definition addToBuild (db : CatalogIndex) (k : Category) (wanted : jsstring)
  (b : Build) : Build :=
  let item := find (fun i => jsstring_eqb (id i) wanted) (components_of db k) in
  set_slot b k item.

(** The state update of [removeItem(category)]. *)
Definition removeItem (k : Category) (b : Build) : Build := set_slot b k None.

(* ================================================================== *)
(** * Builder page: saved builds kept on the device *)

(** A saved build is identified by [Date.now()] on the device and by the
    [_id] of the stored document in an account; [===] tells them apart. *)
Inductive SavedId :=
| LocalId (n : Z)
| AccountId (s : jsstring).

Definition SavedId_eqb (a b : SavedId) : bool :=
  match a, b with
  | LocalId x, LocalId y => (x =? y)%Z
  | AccountId x, AccountId y => jsstring_eqb x y
  | _, _ => false
  end.

Module Saved.
Record t := mk {
  id        : SavedId;
  name      : jsstring;
  createdAt : jsstring;
  items     : Build
}.
End Saved.

(** The state update of [saveBuild] on the device:
    [[entry, ...list].slice(0, 50)]. *)
Definition saveBuild_local (entry : Saved.t) (saved : list Saved.t)
  : list Saved.t :=
  firstn 50 (entry :: saved).



(** [loadSavedById(id)]: the build shown afterwards; [confirmed] is the
    answer to the [confirm] dialog. *)
Definition loadSavedById (savedBuilds : list Saved.t) (wanted : SavedId)
  (confirmed : bool) (currentBuild : Build) : Build :=
  match find (fun b => SavedId_eqb (Saved.id b) wanted) savedBuilds with
  | None => currentBuild
  | Some entry => if confirmed then Saved.items entry else currentBuild
  end.

(* ================================================================== *)
(** * Home page: the catalog figures *)

(** [Object.keys(grouped)] *)
Definition keys {V : Type} (obj : list (Category * V)) : list Category :=
  map fst obj.

(** [categories.reduce((sum, k) => sum + (grouped[k]?.length || 0), 0)] *)
Definition HeroStats_total (grouped : CatalogIndex) : nat :=
  fold_left
    (fun sum k =>
       (sum + match lookup grouped k with
              | Some l => List.length l
              | None => 0
              end)%nat)
    (keys grouped) 0%nat.

(** [categories.length] *)
Definition HeroStats_categories (grouped : CatalogIndex) : nat :=
  List.length (keys grouped).

Definition Category_eq_dec (a b : Category) : {a = b} + {a <> b}.
Proof. decide equality. Defined.

(* ================================================================== *)
(** * Browse page: favorites and the compare list *)

(** [list.includes(x)] on an array of strings. *)
Definition Array_includes (uids : list jsstring) (x : jsstring) : bool :=
  existsb (jsstring_eqb x) uids.

(** The state update of [toggleFavorite(uid)]. *)
Definition toggleFavorite (wanted : jsstring) (uids : list jsstring)
  : list jsstring :=
  if Array_includes uids wanted
  then filter (fun x => negb (jsstring_eqb x wanted)) uids
  else uids ++ [wanted].

(** The state update of [toggleCompare(uid)]. *)
Definition toggleCompare (wanted : jsstring) (uids : list jsstring)
  : list jsstring :=
  if Array_includes uids wanted
  then filter (fun x => negb (jsstring_eqb x wanted)) uids
  else if (3 <=? List.length uids)%nat then uids
  else uids ++ [wanted].

(* ================================================================== *)
(** * Browse page: sorting by price *)

(** [getLowestPrice(c) || fallback] *)
Definition price_or (fallback : Q) (c : Component) : Q :=
  let price := getLowestPrice c in
  if truthy_number price then number price else fallback.

(** The comparators of the orders [price-low] and [price-high]; like
    the one of the recommender they are used for their sign only. *)
Definition price_low (a b : Component) : Q :=
  price_or 999999 a - price_or 999999 b.

Definition price_high (a b : Component) : Q :=
  price_or 0 b - price_or 0 a.

(* ================================================================== *)
(** * Share links: [atob] *)







(* ================================================================== *)
(** * Vocabulary of the properties *)

(** The conjunction of the tests of the filter fields that are set. *)
Definition passes (toLowerCase : jsstring -> jsstring) (filters : Filters.t)
  (c : Component) : bool :=
  match Filters.category filters with
  | Some wanted => if nonempty wanted then by_category wanted c else true
  | None => true
  end
  && match Filters.brand filters with
     | Some wanted =>
         if nonempty wanted then by_brand toLowerCase wanted c else true
     | None => true
     end
  && match Filters.minPrice filters with
     | Some m => if truthy_number (Some m) then at_least m c else true
     | None => true
     end
  && match Filters.maxPrice filters with
     | Some m => if truthy_number (Some m) then at_most m c else true
     | None => true
     end
  && (if truthy (Filters.inStock filters) then some_inStock c else true).



(* ================================================================== *)
(** * Further sample data *)

Definition corsair_in_stock : Filters.t :=
  {| Filters.category := None; Filters.brand := Some (lit "CORSAIR");
     Filters.minPrice := None; Filters.maxPrice := Some 9000;
     Filters.inStock := Some true |}.

Definition memory_only : Filters.t :=
  {| Filters.category := Some (lit "ram"); Filters.brand := None;
     Filters.minPrice := Some 5000; Filters.maxPrice := None;
     Filters.inStock := None |}.

Definition shelf : list Component :=
  [vengeance_ddr5; fury_ddr5; vengeance_ddr4; corsair_supply; legacy_only].

Definition saved_gaming : Saved.t :=
  {| Saved.id := LocalId 1700000000000; Saved.name := lit "Gaming rig";
     Saved.createdAt := lit "2024-01-01T00:00:00.000Z";
     Saved.items := underpowered_build |}.

Definition saved_office : Saved.t :=
  {| Saved.id := LocalId 1700000000001; Saved.name := lit "Office";
     Saved.createdAt := lit "2024-01-02T00:00:00.000Z";
     Saved.items := mismatched_build |}.

(** A network whose API answers with a page of HTML and whose static
    file holds [l]. *)
Definition html_then (l : list Component) : Network :=
  fun u =>
    if jsstring_eqb u (lit "/backend_components.json")
    then Fulfilled (json_response l)
    else Fulfilled {| ok := true; content_type := Some (lit "text/html");
                      body := None |}.

Definition all_falsy : Filters.t :=
  {| Filters.category := Some []; Filters.brand := Some [];
     Filters.minPrice := Some 0; Filters.maxPrice := Some 0;
     Filters.inStock := Some false |}.

Definition ddr5_kit : Component :=
  {| id := lit "ram-1"; category := RAM; name := lit "Trident Z5";
     brand := lit "G.Skill"; socket := None; type' := Some (lit "DDR5");
     ramType := None; wattage := None; vendors := Some [offer 11000 true] |}.

Definition board_ddr4 : Component :=
  {| id := lit "mb-1"; category := Motherboard; name := lit "B660M";
     brand := lit "Gigabyte"; socket := Some (lit "LGA1700"); type' := None;
     ramType := Some (lit "DDR4"); wattage := None;
     vendors := Some [offer 9000 true] |}.

Definition ram_mismatch_build : Build :=
  {| cpu := None; motherboard := Some board_ddr4; ram := Some ddr5_kit;
     gpu := None; storage := None; psu := None; pcCase := None;
     monitor := None |}.

(** A second cpu at the price of [ryzen]. *)
Definition ryzen_tray : Component :=
  part CPU (lit "Ryzen 5 7600 Tray") (lit "AMD") (Some (lit "AM5")) None
    [offer 28000 true].

Definition three_cpus : list Component := [core_i7; ryzen; ryzen_tray].

(** [three_offers] with its eligible offer only. *)
Definition one_offer : Component :=
  part CPU (lit "Core i5") (lit "Intel") None None [offer 6000 true].
(* ================================================================== *)
(** * Properties *)

(** Case analysis on the guard of the first conditional of the goal. *)
Ltac case_guard :=
  match goal with |- context [if ?g then _ else _] => destruct g end.

(* ------------------------------------------------------------------ *)
(** ** Comparisons and minima *)

Lemma Qltb_lt (x y : Q) : Qltb x y = true <-> x < y.
Proof.
  unfold Qltb. rewrite negb_true_iff. split; intro H.
  - apply Qnot_le_lt. intro L. apply Qle_bool_iff in L. congruence.
  - destruct (Qle_bool y x) eqn:E; [|reflexivity].
    apply Qle_bool_iff in E. exfalso. exact (Qlt_not_le _ _ H E).
Qed.

Lemma Qltb_ge (x y : Q) : Qltb x y = false <-> y <= x.
Proof.
  unfold Qltb. rewrite negb_false_iff. apply Qle_bool_iff.
Qed.

Lemma eligible_iff (v : Vendor) :
  eligible v = true <-> inStock v = Some true /\ 0 < price v.
Proof.
  unfold eligible, truthy. rewrite andb_true_iff, Qltb_lt.
  destruct (inStock v) as [[|]|]; intuition congruence.
Qed.

Lemma Qmin_cases (x y : Q) : (Qmin x y = x /\ x <= y) \/ (Qmin x y = y /\ y < x).
Proof.
  unfold Qmin, GenericMinMax.gmin.
  destruct (x ?= y) eqn:E.
  - left. split; [reflexivity|]. apply Qeq_alt in E. rewrite E. apply Qle_refl.
  - left. split; [reflexivity|]. apply Qlt_alt in E. apply Qlt_le_weak, E.
  - right. split; [reflexivity|]. apply Qgt_alt in E. exact E.
Qed.

Lemma Math_min_in (xs : list Q) (x : Q) : In (Math_min x xs) (x :: xs).
Proof.
  unfold Math_min. revert x.
  induction xs as [|y ys IH]; intro x; simpl.
  - now left.
  - destruct (IH (Qmin x y)) as [H|H].
    + rewrite <- H.
      destruct (Qmin_cases x y) as [[E _]|[E _]]; rewrite E; auto.
    + auto.
Qed.

Lemma Math_min_le (xs : list Q) (x : Q) :
  Math_min x xs <= x /\ forall y, In y xs -> Math_min x xs <= y.
Proof.
  unfold Math_min. revert x.
  induction xs as [|y ys IH]; intro x; simpl.
  - split; [apply Qle_refl | contradiction].
  - destruct (IH (Qmin x y)) as [H1 H2].
    split.
    + eapply Qle_trans; [exact H1 | apply Q.le_min_l].
    + intros z [->|Hz]; [|now apply H2].
      eapply Qle_trans; [exact H1 | apply Q.le_min_r].
Qed.

(* ------------------------------------------------------------------ *)
(** ** [reduce] against [Math.min] *)

Lemma Qmin_cheaper (best v : Vendor) :
  Qmin (price best) (price v) = price (cheaper best v).
Proof.
  unfold cheaper.
  destruct (Qmin_cases (price best) (price v)) as [[E L]|[E L]]; rewrite E.
  - apply Qltb_ge in L. now rewrite L.
  - apply Qltb_lt in L. now rewrite L.
Qed.

Lemma Math_min_fold_cheaper (rest : list Vendor) (b : Vendor) :
  Math_min (price b) (map price rest) = price (fold_left cheaper rest b).
Proof.
  unfold Math_min. revert b.
  induction rest as [|y ys IH]; intro b; simpl; [reflexivity|].
  rewrite Qmin_cheaper. apply IH.
Qed.

(** [reduce] with [cheaper] stops at the first offer of least price. *)
Lemma fold_cheaper_first (rest : list Vendor) (b : Vendor) :
  exists l1 l2,
    b :: rest = l1 ++ fold_left cheaper rest b :: l2
    /\ (forall u, In u l1 -> price (fold_left cheaper rest b) < price u)
    /\ (forall u, In u l2 -> price (fold_left cheaper rest b) <= price u).
Proof.
  revert b. induction rest as [|y ys IH]; intro b; simpl.
  - exists [], []. simpl. intuition.
  - destruct (IH (cheaper b y)) as (l1 & l2 & E & H1 & H2).
    set (r := fold_left cheaper ys (cheaper b y)) in *.
    unfold cheaper in E.
    destruct (Qltb (price y) (price b)) eqn:L.
    + apply Qltb_lt in L.
      assert (Hry : price r <= price y).
      { destruct l1 as [|z l1']; simpl in E; injection E as Ez El.
        - rewrite <- Ez. apply Qle_refl.
        - subst z. apply Qlt_le_weak, H1. now left. }
      exists (b :: l1), l2. simpl. rewrite E. split; [reflexivity|]. split; [|exact H2].
      intros u [<-|Hu]; [|now apply H1].
      eapply Qle_lt_trans; eassumption.
    + apply Qltb_ge in L.
      destruct l1 as [|z l1']; simpl in E; injection E as Ez El.
      * exists [], (y :: ys). simpl. rewrite <- Ez. split; [reflexivity|].
        split; [contradiction|].
        intros u [<-|Hu]; [exact L|].
        rewrite Ez. apply H2. rewrite <- El. exact Hu.
      * subst z. exists (b :: y :: l1'), l2. simpl. rewrite El.
        split; [reflexivity|]. split; [|exact H2].
        assert (Hb : price r < price b) by (apply H1; now left).
        intros u [<-|[<-|Hu]].
        -- exact Hb.
        -- eapply Qlt_le_trans; eassumption.
        -- apply H1. now right.
Qed.

(** A place in a filtered list comes from a place in the list. *)
Lemma filter_split {A : Type} (f : A -> bool) (l : list A) :
  forall l1 x l2, filter f l = l1 ++ x :: l2 ->
  exists m1 m2, l = m1 ++ x :: m2 /\ filter f m1 = l1 /\ filter f m2 = l2.
Proof.
  induction l as [|a l IH]; intros l1 x l2 E; simpl in E.
  - destruct l1; discriminate.
  - destruct (f a) eqn:Fa.
    + destruct l1 as [|z l1']; simpl in E; injection E as Ea El.
      * subst a. exists [], l. simpl. auto.
      * subst z. destruct (IH _ _ _ El) as (m1 & m2 & -> & F1 & F2).
        exists (a :: m1), m2. simpl. rewrite Fa, F1. auto.
    + destruct (IH _ _ _ E) as (m1 & m2 & -> & F1 & F2).
      exists (a :: m1), m2. simpl. rewrite Fa. auto.
Qed.

Lemma getLowestPrice_offers (c : Component) :
  getLowestPrice c =
  match map price (filter eligible (offers c)) with
  | [] => None
  | p :: ps => Some (Math_min p ps)
  end.
Proof.
  unfold getLowestPrice, offers. now destruct (vendors c) as [[|v vs]|].
Qed.

Lemma getBestVendor_offers (c : Component) :
  getBestVendor c =
  match filter eligible (offers c) with
  | [] => None
  | b :: rest => Some (fold_left cheaper rest b)
  end.
Proof.
  unfold getBestVendor, offers. now destruct (vendors c) as [[|v vs]|].
Qed.

(** Claim C1.  For every component [c], [getLowestPrice c] is the least
    price among the offers of [c] that have [inStock == true] and
    [price > 0]: it is the price of such an offer and no such offer is
    cheaper.  It is [None] ([null]) when no such offer exists, which
    covers a component with no vendors and one whose offers are all out
    of stock or priced at 0 or below. *)
Theorem getLowestPrice_min_eligible (c : Component) :
  match getLowestPrice c with
  | Some p =>
      (exists v, In v (offers c)
                 /\ inStock v = Some true /\ 0 < price v /\ price v = p)
      /\ (forall v, In v (offers c) ->
                    inStock v = Some true -> 0 < price v -> p <= price v)
  | None =>
      forall v, In v (offers c) -> ~ (inStock v = Some true /\ 0 < price v)
  end.
Proof.
  rewrite getLowestPrice_offers.
  destruct (filter eligible (offers c)) as [|b rest] eqn:F; simpl.
  - intros v Hv Hel. apply eligible_iff in Hel.
    assert (In v (filter eligible (offers c))) as Hin by (apply filter_In; auto).
    rewrite F in Hin. exact Hin.
  - split.
    + destruct (Math_min_in (map price rest) (price b)) as [E|Hin].
      * exists b. assert (In b (filter eligible (offers c))) as Hb
          by (rewrite F; now left).
        apply filter_In in Hb. destruct Hb as [Hb El].
        apply eligible_iff in El. intuition.
      * apply in_map_iff in Hin. destruct Hin as (v & E & Hv).
        assert (In v (filter eligible (offers c))) as Hb
          by (rewrite F; now right).
        apply filter_In in Hb. destruct Hb as [Hb El].
        apply eligible_iff in El. exists v. intuition.
    + intros v Hv Hs Hp.
      assert (In v (filter eligible (offers c))) as Hin.
      { apply filter_In. split; [exact Hv|]. apply eligible_iff. auto. }
      rewrite F in Hin.
      destruct (Math_min_le (map price rest) (price b)) as [L1 L2].
      destruct Hin as [<-|Hin]; [exact L1|].
      apply L2. now apply in_map.
Qed.

(** Claim C2.  For every component [c], [getBestVendor c] is absent
    exactly when [getLowestPrice c] is absent; otherwise it is an offer
    of [c] that is in stock and priced above zero, its price is
    [getLowestPrice c], and no offer placed before it in [c.vendors] is
    in stock, priced above zero and of the same price: among the
    eligible offers sharing the least price it is the first one. *)
Theorem getBestVendor_first_lowest (c : Component) :
  (getBestVendor c = None <-> getLowestPrice c = None)
  /\ match getBestVendor c with
     | Some v =>
         exists before after,
           offers c = before ++ v :: after
           /\ inStock v = Some true /\ 0 < price v
           /\ getLowestPrice c = Some (price v)
           /\ (forall u, In u before ->
                 ~ (inStock u = Some true /\ 0 < price u
                    /\ price u == price v))
     | None => getLowestPrice c = None
     end.
Proof.
  rewrite getBestVendor_offers, getLowestPrice_offers.
  destruct (filter eligible (offers c)) as [|b rest] eqn:F; simpl;
    [split; [tauto | reflexivity]|].
  split; [split; discriminate|].
  destruct (fold_cheaper_first rest b) as (l1 & l2 & E & H1 & H2).
  set (r := fold_left cheaper rest b) in *.
  rewrite E in F.
  destruct (filter_split _ _ _ _ _ F) as (m1 & m2 & Eo & F1 & F2).
  exists m1, m2. split; [exact Eo|].
  assert (In r (filter eligible (offers c))) as Hr
    by (rewrite F; apply in_elt).
  apply filter_In in Hr. destruct Hr as [_ Hr]. apply eligible_iff in Hr.
  destruct Hr as [Hs Hp]. repeat split; try assumption.
  - f_equal. apply Math_min_fold_cheaper.
  - intros u Hu (Us & Up & Ue).
    assert (In u l1) as Hin.
    { rewrite <- F1. apply filter_In. split; [exact Hu|].
      apply eligible_iff. auto. }
    specialize (H1 u Hin). rewrite Ue in H1. exact (Qlt_irrefl _ H1).
Qed.

(* ------------------------------------------------------------------ *)
(** ** Compatibility findings *)

Lemma jsstring_eqb_eq (a b : jsstring) : jsstring_eqb a b = true <-> a = b.
Proof.
  revert b. induction a as [|x a IH]; destruct b as [|y b]; simpl;
    try (split; [discriminate | discriminate]); try tauto.
  rewrite andb_true_iff, N.eqb_eq, IH. split.
  - intros [-> ->]. reflexivity.
  - intro E. injection E. auto.
Qed.

Lemma nonempty_true (s : jsstring) : s <> [] -> nonempty s = true.
Proof. destruct s; [congruence | reflexivity]. Qed.

Section CheckerFacts.

Variable toLowerCase : jsstring -> jsstring.

(** Lower-casing never empties a string. *)
Hypothesis toLowerCase_nonempty : forall s, s <> [] -> toLowerCase s <> [].

(** The findings of each check carry the type of that check. *)
Lemma socket_check_type (b : Build) (w : Finding) :
  In w (socket_check toLowerCase b) ->
  type w = socket_type /\ severity w = Error.
Proof.
  unfold socket_check.
  destruct (cpu b), (motherboard b); try contradiction.
  case_guard; [|contradiction].
  intros [<-|[]]. auto.
Qed.

Lemma ram_check_type (b : Build) (w : Finding) :
  In w (ram_check toLowerCase b) -> type w = ram_type /\ severity w = Warning.
Proof.
  unfold ram_check.
  destruct (ram b), (motherboard b); try contradiction.
  case_guard; [|contradiction].
  intros [<-|[]]. auto.
Qed.

Lemma power_check_type (b : Build) (w : Finding) :
  In w (power_check b) -> type w = power_type /\ severity w = Warning.
Proof.
  unfold power_check.
  destruct (psu b); try contradiction.
  case_guard; [|contradiction].
  intros [<-|[]]. auto.
Qed.

Lemma warnings_checkCompatibility (b : Build) :
  warnings (checkCompatibility toLowerCase b)
  = socket_check toLowerCase b ++ ram_check toLowerCase b ++ power_check b.
Proof. reflexivity. Qed.

Lemma socket_check_differ (b : Build) (c m : Component) (sc sm : jsstring) :
  cpu b = Some c -> motherboard b = Some m ->
  socket c = Some sc -> socket m = Some sm -> sc <> [] -> sm <> [] ->
  (toLowerCase sc <> toLowerCase sm ->
     exists msg,
       socket_check toLowerCase b = [mkFinding socket_type Error msg])
  /\ (toLowerCase sc = toLowerCase sm -> socket_check toLowerCase b = []).
Proof.
  intros Hc Hm Hsc Hsm Nc Nm. unfold socket_check.
  rewrite Hc, Hm. unfold lower_or_empty. rewrite Hsc, Hsm.
  rewrite (nonempty_true _ (toLowerCase_nonempty _ Nc)),
    (nonempty_true _ (toLowerCase_nonempty _ Nm)).
  simpl. split; intro H.
  - destruct (jsstring_eqb (toLowerCase sc) (toLowerCase sm)) eqn:E.
    + apply jsstring_eqb_eq in E. contradiction.
    + simpl. eexists. reflexivity.
  - apply jsstring_eqb_eq in H. now rewrite H.
Qed.

(** Claim C4.  For every build in which a cpu and a motherboard are
    selected and both socket strings are non-empty, [checkCompatibility]
    reports a finding of type socket and severity error exactly when the
    two sockets differ after [toLowerCase].  When they differ and the
    build holds nothing but the cpu and the motherboard, the findings
    are exactly one finding of type socket and severity error, and
    [isCompatible] is [false].  [toLowerCase] is the case mapping of the
    runtime, of which the proof uses that it never empties a string. *)
Theorem socket_finding_iff_sockets_differ
  (b : Build) (c m : Component) (sc sm : jsstring) :
  cpu b = Some c -> motherboard b = Some m ->
  socket c = Some sc -> socket m = Some sm -> sc <> [] -> sm <> [] ->
  ((exists w, In w (warnings (checkCompatibility toLowerCase b))
              /\ type w = socket_type /\ severity w = Error)
   <-> toLowerCase sc <> toLowerCase sm)
  /\ (toLowerCase sc <> toLowerCase sm ->
      ram b = None -> gpu b = None -> storage b = None -> psu b = None ->
      pcCase b = None -> monitor b = None ->
      (exists msg,
          warnings (checkCompatibility toLowerCase b)
          = [mkFinding socket_type Error msg])
      /\ isCompatible (checkCompatibility toLowerCase b) = false).
Proof.
  intros Hc Hm Hsc Hsm Nc Nm.
  destruct (socket_check_differ b c m sc sm Hc Hm Hsc Hsm Nc Nm) as [D S].
  split; [split|].
  - intros (w & Hw & Ht & _) E.
    rewrite warnings_checkCompatibility, (S E) in Hw. simpl in Hw.
    apply in_app_or in Hw. destruct Hw as [Hw|Hw].
    + apply ram_check_type in Hw. destruct Hw. congruence.
    + apply power_check_type in Hw. destruct Hw. congruence.
  - intro NE. destruct (D NE) as [msg E].
    exists (mkFinding socket_type Error msg).
    rewrite warnings_checkCompatibility, E. simpl. auto.
  - intros NE Hr _ _ Hp _ _. destruct (D NE) as [msg E].
    unfold checkCompatibility.
    assert (ram_check toLowerCase b = []) as ->
      by (unfold ram_check; now rewrite Hr).
    assert (power_check b = []) as -> by (unfold power_check; now rewrite Hp).
    rewrite E. simpl. split; [exists msg|]; reflexivity.
Qed.

(** Claim C10.  Two builds that agree on the cpu, motherboard, ram, gpu
    and psu slots get the same result from [checkCompatibility]
    (findings, [isCompatible] and [hasWarnings]): the storage, pcCase
    and monitor slots are never read.  The power estimate is 125 for a
    selected cpu plus 250 for a selected gpu plus the constant 100,
    whatever else is selected. *)
Theorem checkCompatibility_reads_five_slots (b1 b2 : Build) :
  cpu b1 = cpu b2 -> motherboard b1 = motherboard b2 -> ram b1 = ram b2 ->
  gpu b1 = gpu b2 -> psu b1 = psu b2 ->
  checkCompatibility toLowerCase b1 = checkCompatibility toLowerCase b2
  /\ estimatedPower b1
     = ((match cpu b1 with Some _ => 125 | None => 0 end)
        + (match gpu b1 with Some _ => 250 | None => 0 end) + 100)%Z
  /\ estimatedPower b1 = estimatedPower b2.
Proof.
  intros Hc Hm Hr Hg Hp.
  assert (estimatedPower b1 = estimatedPower b2) as He
    by (unfold estimatedPower; now rewrite Hc, Hg).
  split; [|split; [|exact He]].
  - unfold checkCompatibility.
    assert (socket_check toLowerCase b1 = socket_check toLowerCase b2) as ->
      by (unfold socket_check; now rewrite Hc, Hm).
    assert (ram_check toLowerCase b1 = ram_check toLowerCase b2) as ->
      by (unfold ram_check; now rewrite Hr, Hm).
    assert (power_check b1 = power_check b2) as ->
      by (unfold power_check; now rewrite Hp, He).
    reflexivity.
  - unfold estimatedPower. now destruct (cpu b1), (gpu b1).
Qed.

(** Claim C5.  For every build with a psu selected, let [w] be
    [parseInt(psu.wattage)], taken as 0 when [parseInt] gives [NaN], and
    [est] be 125 if a cpu is selected plus 250 if a gpu is selected
    plus 100.  [checkCompatibility] reports a finding of type power
    exactly when [0 < w] and [w < est * 1.2]; so the check is skipped
    when [w] is 0.  Such a finding has severity warning and its message
    recommends [Math.ceil(est * 1.3)], the least integer that is not
    below [est * 1.3]. *)
Theorem power_finding_iff_underpowered (b : Build) (p : Component) :
  psu b = Some p ->
  let w := match parseInt (wattage p) with Some z => z | None => 0%Z end in
  let est := ((match cpu b with Some _ => 125 | None => 0 end)
              + (match gpu b with Some _ => 250 | None => 0 end) + 100)%Z in
  let recommended := Math_ceil (inject_Z est * 1.3) in
  ((exists f, In f (warnings (checkCompatibility toLowerCase b))
              /\ type f = power_type)
   <-> (0 < w)%Z /\ inject_Z w < inject_Z est * 1.2)
  /\ (forall f, In f (warnings (checkCompatibility toLowerCase b)) ->
        type f = power_type ->
        f = {| type := power_type; severity := Warning;
               message := lit "PSU (" ++ Z_to_jsstring w
                          ++ lit "W) may be insufficient. Recommended: "
                          ++ Z_to_jsstring recommended ++ lit "W+" |})
  /\ (inject_Z recommended - 1 < inject_Z est * 1.3 <= inject_Z recommended).
Proof.
  intros Hp w est recommended.
  assert (estimatedPower b = est) as He by reflexivity.
  assert (psuWattage_of p = w) as Hw by reflexivity.
  assert (forall f, In f (warnings (checkCompatibility toLowerCase b)) ->
                    type f = power_type -> In f (power_check b)) as Hin.
  { intros f Hf Ht. rewrite warnings_checkCompatibility in Hf.
    apply in_app_or in Hf. destruct Hf as [Hf|Hf].
    - apply socket_check_type in Hf. destruct Hf. congruence.
    - apply in_app_or in Hf. destruct Hf as [Hf|Hf]; [|exact Hf].
      apply ram_check_type in Hf. destruct Hf. congruence. }
  assert (power_check b =
          if (0 <? w)%Z && Qltb (inject_Z w) (inject_Z est * 1.2)
          then [ {| type := power_type; severity := Warning;
                    message := lit "PSU (" ++ Z_to_jsstring w
                               ++ lit "W) may be insufficient. Recommended: "
                               ++ Z_to_jsstring recommended ++ lit "W+" |} ]
          else []) as Hpc.
  { unfold power_check. rewrite Hp, He, Hw. reflexivity. }
  split; [split|split].
  - intros (f & Hf & Ht). specialize (Hin f Hf Ht). rewrite Hpc in Hin.
    destruct (0 <? w)%Z eqn:W; [|contradiction].
    destruct (Qltb (inject_Z w) (inject_Z est * 1.2)) eqn:L; [|contradiction].
    split; [now apply Z.ltb_lt | now apply Qltb_lt].
  - intros [W L]. apply Z.ltb_lt in W. apply Qltb_lt in L.
    rewrite W, L in Hpc. simpl in Hpc.
    eexists. rewrite warnings_checkCompatibility, Hpc. split.
    + apply in_or_app. right. apply in_or_app. right. now left.
    + reflexivity.
  - intros f Hf Ht. specialize (Hin f Hf Ht). rewrite Hpc in Hin.
    destruct ((0 <? w)%Z && Qltb (inject_Z w) (inject_Z est * 1.2));
      [|contradiction].
    destruct Hin as [<-|[]]. reflexivity.
  - unfold recommended, Math_ceil. split.
    + pose proof (Qceiling_lt (inject_Z est * 1.3)) as H.
      unfold Z.sub in H. rewrite inject_Z_plus in H. exact H.
    + apply Qle_ceiling.
Qed.

End CheckerFacts.

(* ------------------------------------------------------------------ *)
(** ** Sorting *)

Section Sort.
Context {A : Type} (compareFn : A -> A -> Q).

Lemma insert_Permutation (x : A) (l : list A) :
  Permutation (insert compareFn x l) (x :: l).
Proof.
  induction l as [|y r IH]; simpl; [reflexivity|].
  destruct (Qltb 0 (compareFn x y)); [|reflexivity].
  rewrite IH. apply perm_swap.
Qed.

Lemma sort_Permutation (l : list A) : Permutation (sort compareFn l) l.
Proof.
  induction l as [|x l IH]; simpl; [reflexivity|].
  rewrite insert_Permutation. now constructor.
Qed.

Lemma sort_In (l : list A) (x : A) : In x (sort compareFn l) <-> In x l.
Proof.
  split; apply Permutation_in;
    [apply sort_Permutation | symmetry; apply sort_Permutation].
Qed.
End Sort.

(** The head of a list sorted by descending price is a dearest element. *)
Lemma insert_head_dearest (x : Recommended) (l : list Recommended) :
  (forall z, In z l -> number (lowestPrice z) <= number (lowestPrice (hd x l))) ->
  forall z, In z (insert by_price_desc x l) ->
    number (lowestPrice z)
    <= number (lowestPrice (hd x (insert by_price_desc x l))).
Proof.
  destruct l as [|y r]; simpl.
  - intros _ z [<-|[]]. apply Qle_refl.
  - intro H. destruct (Qltb 0 (by_price_desc x y)) eqn:L; simpl.
    + apply Qltb_lt in L. unfold by_price_desc in L.
      intros z [<-|Hz]; [apply Qle_refl|].
      apply (Permutation_in _ (insert_Permutation by_price_desc x r)) in Hz.
      destruct Hz as [<-|Hz]; [lra|]. apply H. now right.
    + apply Qltb_ge in L. unfold by_price_desc in L.
      intros z [<-|Hz]; [apply Qle_refl|].
      specialize (H z Hz). lra.
Qed.

Lemma sort_head_dearest (l : list Recommended) (d : Recommended) :
  forall z, In z (sort by_price_desc l) ->
    number (lowestPrice z)
    <= number (lowestPrice (hd d (sort by_price_desc l))).
Proof.
  induction l as [|x l IH]; simpl; [contradiction|].
  intros z Hz.
  assert (hd d (insert by_price_desc x (sort by_price_desc l))
          = hd x (insert by_price_desc x (sort by_price_desc l))) as ->.
  { destruct (sort by_price_desc l); simpl; [reflexivity|].
    now destruct (Qltb 0 (by_price_desc x r)). }
  apply insert_head_dearest; [|exact Hz].
  intros y Hy.
  assert (hd x (sort by_price_desc l) = hd d (sort by_price_desc l)) as ->.
  { destruct (sort by_price_desc l); [contradiction | reflexivity]. }
  now apply IH.
Qed.

(* ------------------------------------------------------------------ *)
(** ** Maps keyed by category *)

Lemma Category_eqb_eq (a b : Category) : Category_eqb a b = true <-> a = b.
Proof. destruct a, b; simpl; split; congruence. Qed.

Lemma Category_eqb_refl (a : Category) : Category_eqb a a = true.
Proof. now apply Category_eqb_eq. Qed.

Lemma Category_eqb_neq (a b : Category) : a <> b -> Category_eqb a b = false.
Proof.
  intro H. destruct (Category_eqb a b) eqn:E; [|reflexivity].
  apply Category_eqb_eq in E. contradiction.
Qed.

Lemma lookup_assign_same {V : Type} (m : list (Category * V)) k (v : V) :
  lookup (assign m k v) k = Some v.
Proof.
  induction m as [|[k' v'] r IH]; simpl.
  - now rewrite Category_eqb_refl.
  - destruct (Category_eqb k' k) eqn:E; simpl; rewrite E; auto.
Qed.

Lemma lookup_assign_other {V : Type} (m : list (Category * V)) k k' (v : V) :
  k <> k' -> lookup (assign m k v) k' = lookup m k'.
Proof.
  intro N. induction m as [|[k0 v0] r IH]; simpl.
  - now rewrite Category_eqb_neq.
  - destruct (Category_eqb k0 k) eqn:E; simpl.
    + apply Category_eqb_eq in E. subst k0.
      now rewrite Category_eqb_neq.
    + now rewrite IH.
Qed.

(* ------------------------------------------------------------------ *)
(** ** The recommender, one category at a time *)

Lemma lookup_fold_pick_other (db : CatalogIndex) (budget : PrimFloat.float)
  (entries : list (Category * PrimFloat.float)) (k : Category) :
  ~ In k (map fst entries) ->
  forall acc, lookup (fold_left (pick db budget) entries acc) k = lookup acc k.
Proof.
  induction entries as [|[k0 pct] r IH]; intros N acc; simpl; [reflexivity|].
  simpl in N. rewrite IH by tauto.
  destruct (affordable db budget k0 pct); [reflexivity|].
  apply lookup_assign_other. tauto.
Qed.

Lemma lookup_fold_pick (db : CatalogIndex) (budget : PrimFloat.float)
  (entries : list (Category * PrimFloat.float)) (k : Category)
  (pct : PrimFloat.float) :
  NoDup (map fst entries) -> In (k, pct) entries ->
  forall acc,
    lookup (fold_left (pick db budget) entries acc) k
    = match affordable db budget k pct with
      | best :: _ => Some best
      | [] => lookup acc k
      end.
Proof.
  induction entries as [|[k0 p0] r IH]; intros ND Hin acc; [contradiction|].
  simpl in ND. apply NoDup_cons_iff in ND. destruct ND as [Nk ND].
  destruct Hin as [E|Hin].
  - injection E as -> ->. simpl.
    rewrite lookup_fold_pick_other by exact Nk.
    destruct (affordable db budget k pct); [reflexivity|].
    apply lookup_assign_same.
  - simpl. rewrite (IH ND Hin).
    destruct (affordable db budget k pct); [|reflexivity].
    assert (k0 <> k) as NE.
    { intros ->. apply Nk. apply (in_map fst) in Hin. exact Hin. }
    destruct (affordable db budget k0 p0); [reflexivity|].
    now apply lookup_assign_other.
Qed.

Lemma alloc_entries_NoDup (useCase : jsstring) :
  NoDup (map fst (alloc_entries useCase)).
Proof.
  unfold alloc_entries.
  repeat case_guard; simpl; repeat constructor; simpl; intuition discriminate.
Qed.

(* ------------------------------------------------------------------ *)
(** ** Running promises *)

Lemma run_bind {A B : Type} (net : Network) (m : Async A) (f : A -> Async B) :
  run net (bind m f)
  = match run net m with
    | Fulfilled a => run net (f a)
    | Rejected e => Rejected e
    end.
Proof.
  induction m as [a|e|u k IH|s k IH]; simpl; auto.
Qed.

Lemma run_getRecommendedBuild (api : jsstring) (net : Network)
  (budget : PrimFloat.float) (useCase performance : option jsstring) :
  run net (getRecommendedBuild api budget useCase performance)
  = match run net (getComponentsStructured api) with
    | Fulfilled db =>
        Fulfilled
          (recommend db budget
             (match useCase with Some u => u | None => lit "gaming" end))
    | Rejected e => Rejected e
    end.
Proof.
  unfold getRecommendedBuild. rewrite run_bind.
  now destruct (run net (getComponentsStructured api)).
Qed.

(* ------------------------------------------------------------------ *)
(** ** Survivors *)

Lemma getLowestPrice_pos (c : Component) (p : Q) :
  getLowestPrice c = Some p -> 0 < p.
Proof.
  rewrite getLowestPrice_offers.
  destruct (filter eligible (offers c)) as [|b rest] eqn:F; simpl;
    [discriminate|].
  intro E. injection E as <-.
  assert (forall v, In v (b :: rest) -> 0 < price v) as Hpos.
  { intros v Hv. rewrite <- F in Hv. apply filter_In in Hv.
    destruct Hv as [_ Hv]. now apply eligible_iff in Hv. }
  destruct (Math_min_in (map price rest) (price b)) as [<-|Hin].
  - apply Hpos. now left.
  - apply in_map_iff in Hin. destruct Hin as (v & <- & Hv).
    apply Hpos. now right.
Qed.

Lemma within_with_lowestPrice (limit : PrimFloat.float) (c : Component) :
  within limit (with_lowestPrice c) = survivor limit c.
Proof.
  unfold within, survivor, with_lowestPrice. simpl.
  destruct (getLowestPrice c) as [p|] eqn:E; [|reflexivity].
  apply getLowestPrice_pos in E. simpl.
  destruct (Qeq_bool p 0) eqn:Z; [|reflexivity].
  apply Qeq_bool_iff in Z. rewrite Z in E. exfalso. exact (Qlt_irrefl _ E).
Qed.

Lemma filter_within_map (limit : PrimFloat.float) (l : list Component) :
  filter (within limit) (map with_lowestPrice l)
  = map with_lowestPrice (filter (survivor limit) l).
Proof.
  induction l as [|c l IH]; simpl; [reflexivity|].
  rewrite within_with_lowestPrice.
  destruct (survivor limit c); simpl; now rewrite IH.
Qed.

(* ------------------------------------------------------------------ *)
(** ** The catalog index *)

Lemma components_of_push (g : CatalogIndex) (c : Component) (k : Category) :
  components_of (push_grouped g c) k
  = components_of g k ++ (if Category_eqb (category c) k then [c] else []).
Proof.
  unfold components_of. induction g as [|[k0 l] r IH]; simpl.
  - now destruct (Category_eqb (category c) k).
  - destruct (Category_eqb k0 (category c)) eqn:E0; simpl.
    + apply Category_eqb_eq in E0. subst k0.
      destruct (Category_eqb (category c) k); [reflexivity|].
      now rewrite app_nil_r.
    + destruct (Category_eqb k0 k) eqn:E1; [|exact IH].
      apply Category_eqb_eq in E1. subst k0.
      destruct (Category_eqb (category c) k) eqn:E2; [|now rewrite app_nil_r].
      apply Category_eqb_eq in E2. subst k.
      rewrite Category_eqb_refl in E0. discriminate.
Qed.

Lemma components_of_fold_push (l : list Component) (acc : CatalogIndex)
  (k : Category) :
  components_of (fold_left push_grouped l acc) k
  = components_of acc k ++ filter (fun c => Category_eqb (category c) k) l.
Proof.
  revert acc. induction l as [|c l IH]; intro acc; simpl.
  - now rewrite app_nil_r.
  - rewrite IH, components_of_push, <- app_assoc.
    now destruct (Category_eqb (category c) k).
Qed.

(** Grouping keeps, for each category, its components in catalog order. *)
Lemma components_of_grouped (catalog : list Component) (k : Category) :
  components_of (grouped_by_category catalog) k
  = filter (fun c => Category_eqb (category c) k) catalog.
Proof. apply components_of_fold_push. Qed.

Lemma run_getComponentsStructured (api : jsstring) (net : Network) :
  run net (getComponentsStructured api)
  = match run net (getComponents api) with
    | Fulfilled catalog => Fulfilled (grouped_by_category catalog)
    | Rejected e => Rejected e
    end.
Proof.
  unfold getComponentsStructured. rewrite run_bind.
  now destruct (run net (getComponents api)).
Qed.

Lemma affordable_survivors (catalog : list Component)
  (budget : PrimFloat.float) (k : Category) (fraction : PrimFloat.float) :
  Permutation (affordable (grouped_by_category catalog) budget k fraction)
    (map with_lowestPrice (survivors catalog budget k fraction)).
Proof.
  unfold affordable, survivors.
  rewrite sort_Permutation, filter_within_map, components_of_grouped.
  reflexivity.
Qed.

Lemma survivors_iff (catalog : list Component) (budget : PrimFloat.float)
  (k : Category) (fraction : PrimFloat.float) (c : Component) :
  In c (survivors catalog budget k fraction)
  <-> In c catalog /\ category c = k
      /\ exists p, getLowestPrice c = Some p
                   /\ Qle_float p (ceiling budget fraction) = true.
Proof.
  unfold survivors, survivor. rewrite !filter_In, Category_eqb_eq. split.
  - intros [[Hc Hk] Hs].
    destruct (getLowestPrice c) as [p|]; [|discriminate]. eauto.
  - intros (Hc & Hk & p & -> & Hp). auto.
Qed.

(** Claim C3, amended.  Let the catalog fetch deliver [catalog], and let
    [(k, fraction)] be an entry of the allocation profile selected by
    [useCase].  Then [getRecommendedBuild] resolves; for category [k]
    it keeps exactly the catalog components of that category whose
    lowest eligible price exists and is at most the ceiling
    [(budget * fraction) * 1.15] as binary64 arithmetic gives it; when
    there is such a survivor the recommendation for [k] is one of them,
    carries its lowest price, and no survivor is dearer; when there is
    none the result has no entry for [k]. *)
Theorem getRecommendedBuild_category
  (api : jsstring) (net : Network) (catalog : list Component)
  (budget : PrimFloat.float)
  (useCase performance : option jsstring) (k : Category)
  (fraction : PrimFloat.float) :
  run net (getComponents api) = Fulfilled catalog ->
  In (k, fraction)
     (alloc_entries (match useCase with Some u => u | None => lit "gaming" end)) ->
  exists recommendations,
    run net (getRecommendedBuild api budget useCase performance)
    = Fulfilled recommendations
    /\ Permutation
         (map component
            (affordable (grouped_by_category catalog) budget k fraction))
         (survivors catalog budget k fraction)
    /\ (forall c,
          In c (survivors catalog budget k fraction)
          <-> In c catalog /\ category c = k
              /\ exists p, getLowestPrice c = Some p
                           /\ Qle_float p (ceiling budget fraction) = true)
    /\ match lookup recommendations k with
       | Some best =>
           In (component best) (survivors catalog budget k fraction)
           /\ lowestPrice best = getLowestPrice (component best)
           /\ (forall c, In c (survivors catalog budget k fraction) ->
                 number (getLowestPrice c) <= number (lowestPrice best))
       | None => survivors catalog budget k fraction = []
       end.
Proof.
  intros Hdb Hin. eexists. split.
  { rewrite run_getRecommendedBuild, run_getComponentsStructured, Hdb.
    reflexivity. }
  pose proof (affordable_survivors catalog budget k fraction) as P.
  split.
  { rewrite (Permutation_map component P), map_map. simpl.
    now rewrite map_id. }
  split; [apply survivors_iff|].
  unfold recommend.
  rewrite (lookup_fold_pick _ budget _ k fraction (alloc_entries_NoDup _) Hin).
  destruct (affordable (grouped_by_category catalog) budget k fraction)
    as [|best rest] eqn:Ea.
  - simpl. apply Permutation_nil in P.
    now destruct (survivors catalog budget k fraction).
  - assert (In best (map with_lowestPrice
                       (survivors catalog budget k fraction))) as Hb.
    { apply (Permutation_in _ P). now left. }
    apply in_map_iff in Hb. destruct Hb as (c0 & <- & Hc0).
    simpl. repeat split; [exact Hc0|].
    intros c Hc.
    assert (In (with_lowestPrice c) (with_lowestPrice c0 :: rest)) as Hc'.
    { apply (Permutation_in _ (Permutation_sym P)). now apply in_map. }
    rewrite <- Ea in Hc'. unfold affordable in Hc', Ea.
    pose proof (sort_head_dearest _ (with_lowestPrice c) _ Hc') as Hd.
    rewrite Ea in Hd. exact Hd.
Qed.

(* ------------------------------------------------------------------ *)
(** ** Substrings *)

Lemma startsWith_iff (s p : jsstring) :
  startsWith s p = true <-> exists after, s = p ++ after.
Proof.
  revert s. induction p as [|x p IH]; intro s; simpl.
  - destruct s; split; eauto.
  - destruct s as [|y s].
    + split; [discriminate | intros [a E]; discriminate].
    + simpl. rewrite andb_true_iff, N.eqb_eq, IH. split.
      * intros [-> [a ->]]. eauto.
      * intros [a E]. injection E as -> ->. eauto.
Qed.

Lemma includes_nil (p : jsstring) : includes [] p = startsWith [] p || false.
Proof. reflexivity. Qed.

Lemma includes_cons (y : N) (s p : jsstring) :
  includes (y :: s) p = startsWith (y :: s) p || includes s p.
Proof. reflexivity. Qed.

Lemma includes_iff (s p : jsstring) : includes s p = true <-> substring p s.
Proof.
  unfold substring. induction s as [|y s IH].
  - rewrite includes_nil, orb_false_r, startsWith_iff. split.
    + intros [a E]. exists [], a. exact E.
    + intros (b & a & E). destruct b; [eauto | discriminate].
  - rewrite includes_cons, orb_true_iff, startsWith_iff, IH. split.
    + intros [[a E]|(b & a & E)].
      * exists [], a. exact E.
      * exists (y :: b), a. simpl. now rewrite E.
    + intros (b & a & E). destruct b as [|z b].
      * left. eauto.
      * right. injection E as -> E. eauto.
Qed.

(* ------------------------------------------------------------------ *)
(** ** Tokens *)

Lemma no_space_app (a b : jsstring) :
  no_space (a ++ b) <-> no_space a /\ no_space b.
Proof.
  unfold no_space. split.
  - intro H. split; intros u Hu; apply H, in_or_app; auto.
  - intros [Ha Hb] u Hu. apply in_app_or in Hu. destruct Hu; auto.
Qed.

Lemma ends_with_space_app (x y : jsstring) :
  y <> [] -> (ends_with_space (x ++ y) <-> ends_with_space y).
Proof.
  intro Ny. unfold ends_with_space. rewrite rev_app_distr.
  destruct (rev y) as [|h tl] eqn:E; [|reflexivity].
  apply (f_equal (@rev _)) in E. rewrite rev_involutive in E. contradiction.
Qed.

Lemma ends_with_space_no_space (s : jsstring) :
  ends_with_space s -> no_space s -> s = [].
Proof.
  unfold ends_with_space. intros H Hn.
  destruct (rev s) as [|h tl] eqn:E.
  - apply (f_equal (@rev _)) in E. now rewrite rev_involutive in E.
  - assert (In h s) as Hin by (apply in_rev; rewrite E; now left).
    apply Hn in Hin. congruence.
Qed.

Lemma ends_with_space_cons (u : N) (b : jsstring) :
  is_white_space u = true -> ends_with_space b -> ends_with_space (u :: b).
Proof.
  intros Hu Hb. destruct b as [|z b'].
  - exact Hu.
  - change (u :: z :: b') with ([u] ++ z :: b').
    apply ends_with_space_app; [discriminate | exact Hb].
Qed.

(** The tokens of [a ++ u :: r], where [a] holds no white space and [u]
    is white space: [a] itself when it is not empty, and those of [r]. *)
Lemma is_token_split (a r t : jsstring) (u : N) :
  no_space a -> is_white_space u = true ->
  (is_token (a ++ u :: r) t <-> (t = a /\ a <> []) \/ is_token r t).
Proof.
  intros Ha Hu. split.
  - intros (Nt & St & before & after & E & Hb & Haf).
    apply app_eq_app in E. destruct E as [l [[E1 E2]|[E1 E2]]].
    + (* [before] lies inside [a] *)
      assert (before = []) as ->.
      { apply ends_with_space_no_space; [exact Hb|].
        rewrite E1 in Ha. now apply no_space_app in Ha. }
      simpl in E1. subst l. left.
      apply app_eq_app in E2. destruct E2 as [l [[F1 F2]|[F1 F2]]].
      * destruct l as [|z l']; [rewrite app_nil_r in F1; subst; auto|].
        injection F2 as Ez _. subst z. exfalso.
        assert (is_white_space u = false) as Hf.
        { apply St. rewrite F1. apply in_or_app. right. now left. }
        congruence.
      * destruct l as [|z l']; [rewrite app_nil_r in F1; subst; auto|].
        subst after. simpl in Haf. exfalso.
        assert (is_white_space z = false) as Hf.
        { apply Ha. rewrite F1. apply in_or_app. right. now left. }
        congruence.
    + (* [before] reaches past [a] *)
      destruct l as [|z l'].
      * simpl in E2. destruct t as [|z t']; [contradiction|].
        injection E2 as <- _. exfalso.
        assert (is_white_space u = false) as Hf by (apply St; now left).
        congruence.
      * injection E2 as <- E2. right.
        split; [exact Nt|]. split; [exact St|].
        exists l', after. split; [exact E2|]. split; [|exact Haf].
        destruct l' as [|w l'']; [exact I|].
        rewrite E1 in Hb.
        replace (a ++ u :: w :: l'') with ((a ++ [u]) ++ w :: l'') in Hb
          by (rewrite <- app_assoc; reflexivity).
        apply ends_with_space_app in Hb; [exact Hb | discriminate].
  - intros [[-> Na]|(Nt & St & before & after & E & Hb & Haf)].
    + split; [exact Na|]. split; [exact Ha|].
      exists [], (u :: r). simpl. split; [reflexivity|]. split; [exact I | exact Hu].
    + split; [exact Nt|]. split; [exact St|].
      exists (a ++ u :: before), after. split.
      * rewrite E, <- app_assoc. reflexivity.
      * split; [|exact Haf].
        apply ends_with_space_app; [discriminate|].
        now apply ends_with_space_cons.
Qed.

Lemma is_token_no_space (s t : jsstring) :
  no_space s -> (is_token s t <-> t = s /\ s <> []).
Proof.
  intro Hs. split.
  - intros (Nt & St & before & after & E & Hb & Haf).
    assert (before = []) as ->.
    { apply ends_with_space_no_space; [exact Hb|].
      rewrite E in Hs. now apply no_space_app in Hs. }
    destruct after as [|z after'].
    + simpl in E. rewrite app_nil_r in E. subst. auto.
    + exfalso. simpl in Haf.
      assert (is_white_space z = false) as Hf.
      { apply Hs. rewrite E. simpl. apply in_or_app. right. now left. }
      congruence.
  - intros [-> Ns]. split; [exact Ns|]. split; [exact Hs|].
    exists [], []. simpl. rewrite app_nil_r. repeat split.
Qed.

(** The non-empty pieces of a split are the tokens. *)
Lemma split_ws_from_tokens (s acc : jsstring) (skipping : bool) (t : jsstring) :
  no_space acc -> (skipping = true -> acc = []) -> t <> [] ->
  (In t (split_ws_from acc skipping s) <-> is_token (rev acc ++ s) t).
Proof.
  revert acc skipping. induction s as [|u r IH]; intros acc sk Ha Hsk Nt.
  - simpl. rewrite app_nil_r.
    assert (no_space (rev acc)) as Hr.
    { intros z Hz. apply Ha. now apply in_rev. }
    rewrite (is_token_no_space _ _ Hr). split.
    + intros [E|[]]. subst t. auto.
    + intros [-> _]. now left.
  - simpl. destruct (is_white_space u) eqn:Hu.
    + assert (no_space (rev acc)) as Hr.
      { intros z Hz. apply Ha. now apply in_rev. }
      rewrite (is_token_split _ _ _ _ Hr Hu).
      assert (In t (split_ws_from [] true r) <-> is_token r t) as IH0.
      { apply (IH [] true); [intros z [] | reflexivity | exact Nt]. }
      destruct sk.
      * rewrite (Hsk eq_refl) in *. simpl. rewrite IH0. split; [auto|].
        intros [[_ F]|H]; [now contradiction F | exact H].
      * simpl. rewrite IH0. split.
        -- intros [E|H]; [left; subst t; auto | now right].
        -- intros [[-> _]|H]; [now left | now right].
    + rewrite (IH (u :: acc) false).
      * simpl. rewrite <- app_assoc. reflexivity.
      * intros z [<-|Hz]; [exact Hu | now apply Ha].
      * discriminate.
      * exact Nt.
Qed.

Lemma split_ws_tokens (s t : jsstring) :
  t <> [] -> (In t (split_ws s) <-> is_token s t).
Proof.
  intro Nt. unfold split_ws.
  apply (split_ws_from_tokens s [] false t); [intros z [] | discriminate | exact Nt].
Qed.

(* ------------------------------------------------------------------ *)
(** ** Search terms and tokens *)

Lemma includes_empty (s : jsstring) : includes s [] = true.
Proof. apply includes_iff. exists [], s. reflexivity. Qed.

Section SearchFacts.

Variable toLowerCase : jsstring -> jsstring.

Lemma matches_terms_tokens (query : jsstring) (c : Component) :
  matches_terms toLowerCase (split_ws (toLowerCase query)) c = true
  <-> forall t, is_token (toLowerCase query) t ->
                substring t (searchText toLowerCase c).
Proof.
  unfold matches_terms. rewrite forallb_forall. split.
  - intros H t Ht. apply includes_iff, H.
    apply split_ws_tokens; [|exact Ht].
    now destruct Ht as (Nt & _).
  - intros H term Hin. destruct term as [|u term'] eqn:E.
    + apply includes_empty.
    + rewrite <- E in *. apply split_ws_tokens in Hin; [|subst; discriminate].
      apply includes_iff. now apply H.
Qed.

(* ------------------------------------------------------------------ *)
(** ** Sorting exact matches first is a stable partition *)

Lemma insert_exact_first (query : jsstring) (x : Component)
  (hits rest : list Component) :
  (forall y, In y hits -> exact toLowerCase query y = true) ->
  (forall y, In y rest -> exact toLowerCase query y = false) ->
  insert (exact_first toLowerCase query) x (hits ++ rest)
  = if exact toLowerCase query x then x :: hits ++ rest
    else hits ++ x :: rest.
Proof.
  intros Hh Hr. induction hits as [|y hits IH]; cbn [insert app].
  - destruct rest as [|z rest']; cbn [insert].
    + now destruct (exact toLowerCase query x).
    + unfold exact_first. rewrite (Hr z) by now left.
      now destruct (exact toLowerCase query x).
  - unfold exact_first at 1. rewrite (Hh y) by now left.
    destruct (exact toLowerCase query x) eqn:Ex; cbn; [reflexivity|].
    rewrite IH; [reflexivity|].
    intros w Hw. apply Hh. now right.
Qed.

Lemma sort_exact_first (query : jsstring) (l : list Component) :
  sort (exact_first toLowerCase query) l
  = filter (exact toLowerCase query) l
    ++ filter (fun c => negb (exact toLowerCase query c)) l.
Proof.
  induction l as [|x l IH]; [reflexivity|].
  cbn [sort fold_right filter]. fold (sort (exact_first toLowerCase query) l).
  rewrite IH, insert_exact_first.
  - now destruct (exact toLowerCase query x).
  - intros y Hy. now apply filter_In in Hy.
  - intros y Hy. apply filter_In in Hy. destruct Hy as [_ Hy].
    now apply negb_true_iff in Hy.
Qed.

(** Claim C9, amended.  An empty query returns the input unchanged.  For
    any other query the result is the list [matching] of the components
    for which every whitespace-separated token of the lower-cased query
    occurs in the lower-cased text [name + " " + brand + " " + category]
    (the three fields joined by single spaces, as the template literal
    builds it), reordered only so that the components whose lower-cased
    name contains the whole lower-cased query come first; within each of
    the two groups the input order is kept. *)
Theorem fuzzySearch_tokens_then_exact_first
  (query : jsstring) (components : list Component) :
  let matching :=
    filter (matches_terms toLowerCase (split_ws (toLowerCase query)))
      components in
  (query = [] -> fuzzySearch toLowerCase query components = components)
  /\ (query <> [] ->
      fuzzySearch toLowerCase query components
      = filter (exact toLowerCase query) matching
        ++ filter (fun c => negb (exact toLowerCase query c)) matching)
  /\ (forall c,
        In c matching
        <-> In c components
            /\ forall t, is_token (toLowerCase query) t ->
                 substring t
                   (toLowerCase (name c ++ lit " " ++ brand c ++ lit " "
                                 ++ category_name (category c))))
  /\ (forall c,
        exact toLowerCase query c = true
        <-> substring (toLowerCase query) (toLowerCase (name c))).
Proof.
  intro matching. split; [|split; [|split]].
  - intros ->. reflexivity.
  - intro Nq. destruct query as [|u q]; [contradiction|].
    unfold fuzzySearch. apply sort_exact_first.
  - intro c. unfold matching. rewrite filter_In, matches_terms_tokens.
    reflexivity.
  - intro c. unfold exact. apply includes_iff.
Qed.

End SearchFacts.

(** Claim C9 as stated fails.  The token [xa] occurs in the plain
    concatenation of name, brand and category of a card named [RTX] by
    [Asus], [rtxasusgpu], but not in the text the search builds,
    [rtx asus gpu]: the card is not found. *)
Lemma fuzzySearch_not_plain_concatenation :
  (forall t, is_token (latin1_toLowerCase (lit "xa")) t ->
     substring t
       (latin1_toLowerCase
          (name rtx_asus ++ brand rtx_asus
           ++ category_name (category rtx_asus))))
  /\ fuzzySearch latin1_toLowerCase (lit "xa") [rtx_asus] = [].
Proof.
  split; [|reflexivity].
  intros t Ht.
  assert (t <> []) as Nt by now destruct Ht.
  apply split_ws_tokens in Ht; [|exact Nt].
  vm_compute in Ht. destruct Ht as [<-|[]].
  apply includes_iff. reflexivity.
Qed.

(* ------------------------------------------------------------------ *)
(** ** What the recommender fetches *)

Lemma fetched_bind {A B : Type} (net : Network) (m : Async A) (f : A -> Async B) :
  fetched net (bind m f)
  = fetched net m
    ++ match run net m with
       | Fulfilled a => fetched net (f a)
       | Rejected _ => []
       end.
Proof.
  induction m as [a|e|u k IH|s k IH]; simpl; auto.
  now rewrite IH.
Qed.

Lemma fetched_getComponents (api : jsstring) (net : Network) :
  exists more,
    fetched net (getComponents api) = (api ++ lit "/components") :: more.
Proof.
  unfold getComponents. rewrite fetched_bind. simpl. eexists. reflexivity.
Qed.

(** Claim C6, amended.  [getRecommendedBuild] fetches the catalog
    itself, first from [API_URL/components].  Its outcome is a function
    of what that fetch delivers, of the budget and of the use case:
    two invocations that receive the same catalog (or the same failure)
    with the same budget and use case yield the identical recommended
    build (or the same rejection), whatever [performance] is. *)
Theorem getRecommendedBuild_determined_by_catalog
  (api : jsstring) (net1 net2 : Network) (budget : PrimFloat.float)
  (useCase performance1 performance2 : option jsstring) :
  run net1 (getComponents api) = run net2 (getComponents api) ->
  run net1 (getRecommendedBuild api budget useCase performance1)
  = run net2 (getRecommendedBuild api budget useCase performance2)
  /\ run net1 (getRecommendedBuild api budget useCase performance1)
     = match run net1 (getComponents api) with
       | Fulfilled catalog =>
           Fulfilled
             (recommend (grouped_by_category catalog) budget
                (match useCase with Some u => u | None => lit "gaming" end))
       | Rejected e => Rejected e
       end
  /\ exists more,
       fetched net1 (getRecommendedBuild api budget useCase performance1)
       = (api ++ lit "/components") :: more.
Proof.
  intro H. split; [|split].
  - rewrite !run_getRecommendedBuild, !run_getComponentsStructured, H.
    reflexivity.
  - rewrite run_getRecommendedBuild, run_getComponentsStructured.
    now destruct (run net1 (getComponents api)).
  - unfold getRecommendedBuild, getComponentsStructured.
    rewrite !fetched_bind.
    destruct (fetched_getComponents api net1) as [more ->].
    simpl. eexists. reflexivity.
Qed.

(** Claim C7 at its failing input.  An offer priced 4500 whose
    availability is given through [stock] only ([stock: true], no
    [inStock]) is not eligible: a component with that single offer has
    no lowest price and no best vendor. *)
Theorem legacy_stock_offer_not_eligible :
  eligible (legacy_offer 4500) = false
  /\ getLowestPrice legacy_only = None
  /\ getBestVendor legacy_only = None.
Proof. repeat split. Qed.

(* ------------------------------------------------------------------ *)
(** ** Share links *)

Lemma btoa_throws_iff (s : jsstring) :
  btoa s = None <-> exists u, In u s /\ (255 < u)%N.
Proof.
  unfold btoa. destruct (forallb (fun u => (u <=? 255)%N) s) eqn:F.
  - split; [discriminate|]. intros (u & Hu & L).
    rewrite forallb_forall in F. apply F in Hu. apply N.leb_le in Hu. lia.
  - split; [|reflexivity]. intros _.
    induction s as [|u s IH]; simpl in F; [discriminate|].
    apply andb_false_iff in F. destruct F as [F|F].
    + apply N.leb_gt in F. exists u. split; [now left | exact F].
    + destruct (IH F) as (v & Hv & L). exists v. split; [now right | exact L].
Qed.

(** Claim C8 at its failing input.  The serialization of a build whose
    cpu is named with U+2122 holds that code unit, so [btoa] throws and
    [shareBuild] produces no link: there is no encoding to decode.  The
    build holds no number, so this is so whatever the text of numbers. *)
Theorem shareBuild_throws_on_trademark
  (Number_toString : Q -> jsstring) (origin : jsstring) :
  In 8482%N (JSON_stringify Number_toString (Build_json trademark_build))
  /\ btoa (JSON_stringify Number_toString (Build_json trademark_build)) = None
  /\ shareBuild Number_toString origin trademark_build = None.
Proof.
  assert (btoa (JSON_stringify Number_toString (Build_json trademark_build))
          = None) as E by (vm_compute; reflexivity).
  split; [|split; [exact E|]].
  - vm_compute. tauto.
  - unfold shareBuild. now rewrite E.
Qed.

(* ------------------------------------------------------------------ *)
(** ** The examples of the specification *)

Example three_offers_lowest : getLowestPrice three_offers = Some 6000.
Proof. reflexivity. Qed.

Example three_offers_best : getBestVendor three_offers = Some (offer 6000 true).
Proof. reflexivity. Qed.

Example parseInt_samples :
  parseInt (Some (lit "650W")) = Some 650%Z
  /\ parseInt (Some (lit "  300")) = Some 300%Z
  /\ parseInt (Some (lit "Gold")) = None
  /\ parseInt None = None.
Proof. repeat split. Qed.

Example underpowered_findings :
  warnings (checkCompatibility latin1_toLowerCase underpowered_build)
  = [ {| type := power_type; severity := Warning;
         message :=
           lit "PSU (300W) may be insufficient. Recommended: 618W+" |} ].
Proof. reflexivity. Qed.

Example search_ddr5_corsair :
  fuzzySearch latin1_toLowerCase (lit "ddr5 corsair")
    [vengeance_ddr4; fury_ddr5; corsair_supply; vengeance_ddr5]
  = [vengeance_ddr5].
Proof. reflexivity. Qed.

Example search_exact_names_first :
  fuzzySearch latin1_toLowerCase (lit "Corsair")
    [vengeance_ddr4; fury_ddr5; corsair_supply; vengeance_ddr5]
  = [vengeance_ddr4; corsair_supply; vengeance_ddr5].
Proof. reflexivity. Qed.

(* ------------------------------------------------------------------ *)
(** ** Instances *)

Lemma latin1_toLowerCase_nonempty (s : jsstring) :
  s <> [] -> latin1_toLowerCase s <> [].
Proof. destruct s; [congruence | discriminate]. Qed.

Lemma socket_finding_witness :
  (exists msg,
      warnings (checkCompatibility latin1_toLowerCase mismatched_build)
      = [mkFinding socket_type Error msg])
  /\ isCompatible (checkCompatibility latin1_toLowerCase mismatched_build)
     = false.
Proof.
  refine (proj2 (socket_finding_iff_sockets_differ latin1_toLowerCase
                   latin1_toLowerCase_nonempty mismatched_build
                   ryzen board_lga (lit "AM5") (lit "LGA1700")
                   eq_refl eq_refl eq_refl eq_refl _ _)
            _ eq_refl eq_refl eq_refl eq_refl eq_refl eq_refl);
    intro H; vm_compute in H; discriminate H.
Defined.

Lemma power_finding_witness :
  exists f, In f (warnings (checkCompatibility latin1_toLowerCase
                              underpowered_build))
            /\ type f = power_type.
Proof.
  refine (proj2 (proj1 (power_finding_iff_underpowered latin1_toLowerCase
                          underpowered_build supply_300 eq_refl)) _).
  split; reflexivity.
Defined.

Lemma checkCompatibility_reads_five_slots_witness :
  checkCompatibility latin1_toLowerCase underpowered_build
  = checkCompatibility latin1_toLowerCase underpowered_build_filled.
Proof.
  exact (proj1 (checkCompatibility_reads_five_slots latin1_toLowerCase
                  underpowered_build underpowered_build_filled
                  eq_refl eq_refl eq_refl eq_refl eq_refl)).
Defined.

Section AdvisorInstances.
Import PrimFloat.

Example general_100000_cpu :
  option_map component
    (lookup (recommend (grouped_by_category two_cpus) 100000%float
               (lit "general")) CPU)
  = Some ryzen.
Proof. reflexivity. Qed.

(** Claim C3 as stated fails.  For a budget of 100000 the [general]
    preset gives the cpu the fraction 0.25, and the exact product
    [100000 * 0.25 * 1.15] is 28750; the page computes
    28749.999999999996, so a cpu whose lowest price is 28750 is not
    kept and the build has no cpu. *)
Lemma exact_ceiling_cpu_dropped :
  getLowestPrice edge_cpu = Some 28750
  /\ 28750 <= 100000 * 0.25 * 1.15
  /\ In (CPU, 0.25%float) (alloc_entries (lit "general"))
  /\ Qle_float 28750 (ceiling 100000%float 0.25%float) = false
  /\ run (serving [edge_cpu])
       (getRecommendedBuild (lit "/api") 100000%float
          (Some (lit "general")) None)
     = Fulfilled [].
Proof.
  split; [reflexivity|]. split; [discriminate|].
  split; [left; reflexivity|]. split; reflexivity.
Qed.

Lemma getRecommendedBuild_category_witness :
  exists recommendations,
    run (serving two_cpus)
      (getRecommendedBuild (lit "/api") 100000%float
         (Some (lit "general")) None)
    = Fulfilled recommendations
    /\ Permutation
         (map component
            (affordable (grouped_by_category two_cpus) 100000%float CPU
               0.25%float))
         (survivors two_cpus 100000%float CPU 0.25%float)
    /\ (forall c,
          In c (survivors two_cpus 100000%float CPU 0.25%float)
          <-> In c two_cpus /\ category c = CPU
              /\ exists p, getLowestPrice c = Some p
                           /\ Qle_float p (ceiling 100000%float 0.25%float)
                              = true)
    /\ match lookup recommendations CPU with
       | Some best =>
           In (component best) (survivors two_cpus 100000%float CPU 0.25%float)
           /\ lowestPrice best = getLowestPrice (component best)
           /\ (forall c,
                 In c (survivors two_cpus 100000%float CPU 0.25%float) ->
                 number (getLowestPrice c) <= number (lowestPrice best))
       | None => survivors two_cpus 100000%float CPU 0.25%float = []
       end.
Proof.
  apply (getRecommendedBuild_category (lit "/api") (serving two_cpus) two_cpus
           100000%float (Some (lit "general")) None CPU 0.25%float).
  - reflexivity.
  - left. reflexivity.
Defined.

(** Claim C6 as stated fails.  [getRecommendedBuild] is not a value
    computed from its arguments: it starts with a [fetch], and the same
    arguments give different builds on networks that serve different
    catalogs. *)
Lemma getRecommendedBuild_performs_io :
  ~ performs_no_io
      (getRecommendedBuild (lit "/api") 100000%float
         (Some (lit "general")) None)
  /\ run (serving [ryzen])
       (getRecommendedBuild (lit "/api") 100000%float
          (Some (lit "general")) None)
     <> run (serving [core_i7; board_am5])
          (getRecommendedBuild (lit "/api") 100000%float
             (Some (lit "general")) None).
Proof.
  split.
  - intros [a E]. unfold getRecommendedBuild, getComponentsStructured,
      getComponents, fetch in E. simpl in E. discriminate E.
  - intro E. vm_compute in E. discriminate E.
Qed.

Lemma getRecommendedBuild_determined_by_catalog_witness :
  run (serving two_cpus)
    (getRecommendedBuild (lit "/api") 100000%float
       (Some (lit "general")) None)
  = run (fallback_only two_cpus)
      (getRecommendedBuild (lit "/api") 100000%float (Some (lit "general"))
         (Some (lit "max"))).
Proof.
  refine (proj1 (getRecommendedBuild_determined_by_catalog
                   (lit "/api") (serving two_cpus) (fallback_only two_cpus)
                   100000%float (Some (lit "general")) None
                   (Some (lit "max")) _)).
  reflexivity.
Defined.

End AdvisorInstances.

(* ------------------------------------------------------------------ *)
(** ** The power thresholds in binary64

    The estimate takes four values only.  For each of them the binary64
    products [est * 1.2] and [est * 1.3] that the page computes are the
    exact decimal values, so the rational reading of the power check
    agrees with the page for every integer wattage. *)

Section Binary64.
Import PrimFloat.
Local Open Scope float_scope.

#[warnings="-inexact-float"]
Example binary64_power_products :
  100 * 1.2 = 120 /\ 225 * 1.2 = 270 /\ 350 * 1.2 = 420 /\ 475 * 1.2 = 570
  /\ 100 * 1.3 = 130 /\ 225 * 1.3 = 292.5 /\ 350 * 1.3 = 455
  /\ 475 * 1.3 = 617.5.
Proof. repeat split. Qed.

End Binary64.

(* ================================================================== *)
(** * Filters *)

Lemma filter_filter {A : Type} (f g : A -> bool) (l : list A) :
  filter g (filter f l) = filter (fun x => f x && g x) l.
Proof.
  induction l as [|x l IH]; [reflexivity|].
  cbn [filter]. destruct (f x); cbn [filter andb]; now rewrite IH.
Qed.

Lemma filter_true {A : Type} (l : list A) : filter (fun _ => true) l = l.
Proof. induction l as [|x l IH]; [reflexivity|]. cbn [filter]. now rewrite IH. Qed.

Lemma narrowed_filter {A : Type} (set : bool) (keep : A -> bool) (l : list A) :
  narrowed set keep l = filter (fun x => if set then keep x else true) l.
Proof. destruct set; cbn [narrowed]; [reflexivity|]. now rewrite filter_true. Qed.

Lemma narrowed_field {A F : Type} (field : option F) (set : F -> bool)
  (keep : F -> A -> bool) (l : list A) :
  match field with
  | Some w => narrowed (set w) (keep w) l
  | None => l
  end
  = filter (fun x => match field with
                     | Some w => if set w then keep w x else true
                     | None => true
                     end) l.
Proof.
  destruct field as [w|]; [apply narrowed_filter|]. now rewrite filter_true.
Qed.

Section FilterFacts.

Variable toLowerCase : jsstring -> jsstring.

Lemma filterComponents_filter (components : list Component) (f : Filters.t) :
  filterComponents toLowerCase components f
  = filter (passes toLowerCase f) components.
Proof.
  unfold filterComponents.
  rewrite (narrowed_field (Filters.category f) nonempty by_category).
  rewrite (narrowed_field (Filters.brand f) nonempty (by_brand toLowerCase)).
  rewrite (narrowed_field (Filters.minPrice f)
             (fun m => truthy_number (Some m)) at_least).
  rewrite (narrowed_field (Filters.maxPrice f)
             (fun m => truthy_number (Some m)) at_most).
  rewrite narrowed_filter.
  rewrite !filter_filter.
  apply filter_ext. intros c. unfold passes. now rewrite !andb_assoc.
Qed.

(** Extra X1.  [filterComponents] keeps exactly the components that pass
    the test of every filter field that is set, in the order of the
    input: the chain of conditional [filter] calls is one [filter] by
    the conjunction of the tests, so a component is in the result if and
    only if it is in the input and passes them all. *)
Theorem filterComponents_keeps_passing
  (components : list Component) (f : Filters.t) :
  filterComponents toLowerCase components f
  = filter (passes toLowerCase f) components
  /\ forall c,
       In c (filterComponents toLowerCase components f)
       <-> In c components /\ passes toLowerCase f c = true.
Proof.
  split; [apply filterComponents_filter|].
  intros c. rewrite filterComponents_filter. apply filter_In.
Qed.

(** Extra X2.  Filtering twice with the same filters changes nothing
    more, and two sets of filters can be applied in either order. *)
Theorem filterComponents_idempotent_commutes
  (components : list Component) (f g : Filters.t) :
  filterComponents toLowerCase (filterComponents toLowerCase components f) f
  = filterComponents toLowerCase components f
  /\ filterComponents toLowerCase (filterComponents toLowerCase components f) g
     = filterComponents toLowerCase (filterComponents toLowerCase components g) f.
Proof.
  rewrite !filterComponents_filter, !filter_filter. split.
  - apply filter_ext. intros c. now destruct (passes toLowerCase f c).
  - apply filter_ext. intros c. apply andb_comm.
Qed.

(** Extra X3.  A filter object whose fields are all falsy (absent, the
    empty string, [0], [false]) returns the components unchanged. *)
Theorem filterComponents_unset (components : list Component) (f : Filters.t) :
  match Filters.category f with Some w => w = [] | None => True end ->
  match Filters.brand f with Some w => w = [] | None => True end ->
  match Filters.minPrice f with Some m => m == 0 | None => True end ->
  match Filters.maxPrice f with Some m => m == 0 | None => True end ->
  Filters.inStock f <> Some true ->
  filterComponents toLowerCase components f = components.
Proof.
  intros Hc Hb Hmin Hmax Hs. rewrite filterComponents_filter.
  rewrite <- (filter_true components) at 2.
  apply filter_ext. intros c. unfold passes.
  assert (Ec : match Filters.category f with
               | Some w => if nonempty w then by_category w c else true
               | None => true end = true).
  { destruct (Filters.category f) as [w|]; [now subst w|reflexivity]. }
  assert (Eb : match Filters.brand f with
               | Some w => if nonempty w then by_brand toLowerCase w c else true
               | None => true end = true).
  { destruct (Filters.brand f) as [w|]; [now subst w|reflexivity]. }
  assert (Emin : match Filters.minPrice f with
                 | Some m => if truthy_number (Some m) then at_least m c else true
                 | None => true end = true).
  { destruct (Filters.minPrice f) as [m|]; [|reflexivity].
    cbn [truthy_number]. apply Qeq_bool_iff in Hmin. now rewrite Hmin. }
  assert (Emax : match Filters.maxPrice f with
                 | Some m => if truthy_number (Some m) then at_most m c else true
                 | None => true end = true).
  { destruct (Filters.maxPrice f) as [m|]; [|reflexivity].
    cbn [truthy_number]. apply Qeq_bool_iff in Hmax. now rewrite Hmax. }
  rewrite Ec, Eb, Emin, Emax. cbn [andb].
  destruct (Filters.inStock f) as [[|]|]; [now elim Hs|reflexivity|reflexivity].
Qed.

(** Extra X4.  With a truthy [maxPrice] set, every component of the
    result has an eligible offer, and its lowest eligible price is
    positive and at most [maxPrice]: a component without an eligible
    offer never passes a price ceiling. *)
Theorem filterComponents_maxPrice
  (components : list Component) (f : Filters.t) (m : Q) (c : Component) :
  Filters.maxPrice f = Some m ->
  ~ m == 0 ->
  In c (filterComponents toLowerCase components f) ->
  exists p, getLowestPrice c = Some p /\ 0 < p /\ p <= m.
Proof.
  intros Hf Hm Hin. rewrite filterComponents_filter in Hin.
  apply filter_In in Hin. destruct Hin as [_ Hp].
  unfold passes in Hp. rewrite Hf in Hp.
  assert (Et : truthy_number (Some m) = true).
  { cbn [truthy_number]. apply negb_true_iff.
    destruct (Qeq_bool m 0) eqn:E; [|reflexivity].
    apply Qeq_bool_iff in E. now elim Hm. }
  rewrite Et in Hp.
  apply andb_true_iff in Hp. destruct Hp as [Hp _].
  apply andb_true_iff in Hp. destruct Hp as [_ Hp].
  unfold at_most in Hp. apply andb_true_iff in Hp. destruct Hp as [Ht Hle].
  destruct (getLowestPrice c) as [p|] eqn:E; [|discriminate Ht].
  exists p. split; [reflexivity|]. split.
  - now apply (getLowestPrice_pos c).
  - now apply Qle_bool_iff in Hle.
Qed.

End FilterFacts.

(* ================================================================== *)
(** * More on the compatibility checker *)

Lemma startsWith_skipn (s p : jsstring) :
  startsWith s p = true -> p ++ skipn (List.length p) s = s.
Proof.
  intro H. apply startsWith_iff in H. destruct H as [after ->].
  now rewrite skipn_app, skipn_all, Nat.sub_diag.
Qed.

Lemma replace_same (s p : jsstring) : replace s p p = s.
Proof.
  induction s as [|u s IH]; cbn [replace].
  - destruct (startsWith [] p) eqn:E; [now apply startsWith_skipn | reflexivity].
  - destruct (startsWith (u :: s) p) eqn:E; [now apply startsWith_skipn|].
    now rewrite IH.
Qed.

Section CheckerMore.

Variable toLowerCase : jsstring -> jsstring.

Lemma socket_check_shape (b : Build) :
  socket_check toLowerCase b = []
  \/ exists msg, socket_check toLowerCase b = [mkFinding socket_type Error msg].
Proof.
  unfold socket_check.
  destruct (cpu b) as [c|]; [|now left].
  destruct (motherboard b) as [m|]; [|now left].
  case_guard; [right; eauto | now left].
Qed.

Lemma ram_check_shape (b : Build) :
  ram_check toLowerCase b = []
  \/ exists msg, ram_check toLowerCase b = [mkFinding ram_type Warning msg].
Proof.
  unfold ram_check.
  destruct (ram b) as [r|]; [|now left].
  destruct (motherboard b) as [m|]; [|now left].
  case_guard; [right; eauto | now left].
Qed.

Lemma power_check_shape (b : Build) :
  power_check b = []
  \/ exists msg, power_check b = [mkFinding power_type Warning msg].
Proof.
  unfold power_check.
  destruct (psu b) as [p|]; [|now left].
  case_guard; [right; eauto | now left].
Qed.

Lemma isCompatible_socket_check (b : Build) :
  isCompatible (checkCompatibility toLowerCase b)
  = match socket_check toLowerCase b with [] => true | _ :: _ => false end.
Proof.
  unfold checkCompatibility. cbn [isCompatible].
  destruct (socket_check_shape b) as [Es|[ms Es]];
    destruct (ram_check_shape b) as [Er|[mr Er]];
    destruct (power_check_shape b) as [Ep|[mp Ep]];
    rewrite Es, Er, Ep; reflexivity.
Qed.

(** Extra X5.  The findings come in the order socket, ram, power, at
    most one of each; the only findings of severity error are the socket
    ones, so a build is reported incompatible exactly when its sockets
    are found to differ, and [hasWarnings] holds exactly when there is a
    finding of any kind. *)
Theorem checkCompatibility_findings_shape (b : Build) :
  let result := checkCompatibility toLowerCase b in
  (exists s r p : bool,
      map type (warnings result)
      = (if s then [socket_type] else []) ++ (if r then [ram_type] else [])
        ++ (if p then [power_type] else []))
  /\ (forall f, In f (warnings result) ->
        (severity f = Error <-> type f = socket_type))
  /\ (isCompatible result = false
      <-> exists f, In f (warnings result) /\ type f = socket_type)
  /\ (hasWarnings result = true <-> warnings result <> []).
Proof.
  intro result. unfold result.
  unfold checkCompatibility.
  cbn [warnings isCompatible hasWarnings].
  destruct (socket_check_shape b) as [Es|[ms Es]];
    destruct (ram_check_shape b) as [Er|[mr Er]];
    destruct (power_check_shape b) as [Ep|[mp Ep]];
    rewrite Es, Er, Ep; cbn [app map type existsb is_error severity orb negb
                               List.length Nat.ltb Nat.leb];
    (split; [|split; [|split]]);
    try (intros f Hf; cbn [In] in Hf;
         repeat (destruct Hf as [<-|Hf]; [cbn [severity type]; split; congruence|]);
         contradiction);
    try (split; [discriminate | intros (f & Hf & Ht); cbn [In] in Hf;
         repeat (destruct Hf as [<-|Hf]; [discriminate Ht|]); contradiction]);
    try (split; [intros _; eexists; split; [left; reflexivity|reflexivity]
                | reflexivity]);
    try (split; [congruence | reflexivity]);
    try (split; [discriminate | congruence]).
  all: first [ now exists false, false, false | now exists false, false, true
             | now exists false, true, false | now exists false, true, true
             | now exists true, false, false | now exists true, false, true
             | now exists true, true, false | now exists true, true, true ].
Qed.

(** Extra X6.  With a ram module and a motherboard selected, a ram
    finding is reported exactly when both lower-cased types are
    non-empty and the lower-cased type of the module does not occur in
    the lower-cased [ramType] of the motherboard: replacing [ddr] by
    [ddr] in the module's type leaves it as it is. *)
Theorem ram_finding_iff_type_not_contained (b : Build) (r m : Component) :
  ram b = Some r -> motherboard b = Some m ->
  let ramTy := lower_or_empty toLowerCase (type' r) in
  let mbRam := lower_or_empty toLowerCase (ramType m) in
  (exists f, In f (warnings (checkCompatibility toLowerCase b))
             /\ type f = ram_type)
  <-> ramTy <> [] /\ mbRam <> [] /\ ~ substring ramTy mbRam.
Proof.
  intros Hr Hm ramTy mbRam.
  assert (Hrc : ram_check toLowerCase b
                = if nonempty ramTy && nonempty mbRam
                     && negb (includes mbRam ramTy)
                  then [ {| type := ram_type; severity := Warning;
                            message := lit "RAM type (" ++ tpl (type' r)
                              ++ lit ") may not be compatible with motherboard" |} ]
                  else []).
  { unfold ram_check. rewrite Hr, Hm. fold ramTy mbRam.
    now rewrite replace_same. }
  rewrite warnings_checkCompatibility. split.
  - intros (f & Hf & Ht).
    apply in_app_or in Hf. destruct Hf as [Hf|Hf].
    { destruct (socket_check_shape b) as [E|[msg E]]; rewrite E in Hf.
      - contradiction.
      - destruct Hf as [<-|[]]. discriminate Ht. }
    apply in_app_or in Hf. destruct Hf as [Hf|Hf].
    2:{ destruct (power_check_shape b) as [E|[msg E]]; rewrite E in Hf.
        - contradiction.
        - destruct Hf as [<-|[]]. discriminate Ht. }
    rewrite Hrc in Hf.
    destruct (nonempty ramTy) eqn:N1; [|contradiction].
    destruct (nonempty mbRam) eqn:N2; [|contradiction].
    destruct (includes mbRam ramTy) eqn:I; [contradiction|].
    split; [|split].
    + intro E. rewrite E in N1. discriminate N1.
    + intro E. rewrite E in N2. discriminate N2.
    + intro S. apply includes_iff in S. congruence.
  - intros (N1 & N2 & S).
    apply nonempty_true in N1. apply nonempty_true in N2.
    assert (I : includes mbRam ramTy = false).
    { destruct (includes mbRam ramTy) eqn:I; [|reflexivity].
      apply includes_iff in I. contradiction. }
    rewrite N1, N2, I in Hrc. cbn [andb negb] in Hrc.
    eexists. split.
    + apply in_or_app. right. apply in_or_app. left. rewrite Hrc.
      left. reflexivity.
    + reflexivity.
Qed.

End CheckerMore.

(** Extra X7.  The power check in whole watts: with a psu selected whose
    wattage reads as [w], the power finding is reported exactly when [0
    < w < 120], raised by 150 when a cpu is selected and by 300 when a
    gpu is selected.  So a psu of 570 W or more is never reported, and
    one whose wattage does not read as a positive number is never
    reported either. *)
Theorem power_finding_thresholds (b : Build) (p : Component) :
  psu b = Some p ->
  let w := psuWattage_of p in
  let threshold := (120 + (match cpu b with Some _ => 150 | None => 0 end)
                    + (match gpu b with Some _ => 300 | None => 0 end))%Z in
  (power_check b <> [] <-> (0 < w < threshold)%Z)
  /\ ((570 <= w)%Z -> power_check b = [])
  /\ ((w <= 0)%Z -> power_check b = []).
Proof.
  intros Hp w threshold.
  assert (Hq : forall est t : Z,
             inject_Z est * 1.2 == inject_Z t ->
             Qltb (inject_Z w) (inject_Z est * 1.2) = (w <? t)%Z).
  { intros est t E. destruct (w <? t)%Z eqn:L.
    - apply Qltb_lt. rewrite E. rewrite <- Zlt_Qlt. now apply Z.ltb_lt.
    - apply Qltb_ge. rewrite E. rewrite <- Zle_Qle. now apply Z.ltb_ge. }
  assert (Hc : power_check b <> [] <-> (0 < w < threshold)%Z).
  { unfold power_check. rewrite Hp. fold w. unfold estimatedPower.
    subst threshold.
    destruct (cpu b), (gpu b); cbn [Z.add];
      [rewrite (Hq _ 570%Z) by reflexivity
      |rewrite (Hq _ 270%Z) by reflexivity
      |rewrite (Hq _ 420%Z) by reflexivity
      |rewrite (Hq _ 120%Z) by reflexivity];
      destruct (0 <? w)%Z eqn:W; destruct (w <? _)%Z eqn:L; cbn [andb];
      try apply Z.ltb_lt in W; try apply Z.ltb_ge in W;
      try apply Z.ltb_lt in L; try apply Z.ltb_ge in L;
      (split; [intro H; try (now elim H); lia | intro H; try discriminate; lia]). }
  split; [exact Hc|]. split.
  - intro H. destruct (power_check b) eqn:E; [reflexivity|].
    assert (X : (0 < w < threshold)%Z) by (apply Hc; discriminate).
    subst threshold. destruct (cpu b), (gpu b); lia.
  - intro H. destruct (power_check b) eqn:E; [reflexivity|].
    assert (X : (0 < w < threshold)%Z) by (apply Hc; discriminate).
    lia.
Qed.

(* ================================================================== *)
(** * The catalog fetch *)

Section Protocol.

Variable api : jsstring.
Variable net : Network.

(** Extra X8.  When the API answers with [res.ok] and a content type
    that mentions [application/json], [getComponents] fetches nothing
    else and settles as [res.json()] does: the static file is not tried,
    even when the body fails to parse, because the promise of
    [res.json()] is returned from the [try] block without being awaited
    there. *)
Theorem getComponents_api_answer (res : Response) (contentType : jsstring) :
  net (api ++ lit "/components") = Fulfilled res ->
  ok res = true ->
  content_type res = Some contentType ->
  substring (lit "application/json") contentType ->
  fetched net (getComponents api) = [api ++ lit "/components"]
  /\ run net (getComponents api)
     = match body res with
       | Some l => Fulfilled l
       | None => Rejected (lit "SyntaxError")
       end.
Proof.
  intros Hn Hok Hct Hs. apply includes_iff in Hs.
  unfold getComponents, fetch, json.
  cbn [bind try_catch fetched run]. rewrite Hn.
  cbn [bind try_catch fetched run]. rewrite Hok, Hct, Hs.
  cbn [negb orb bind try_catch fetched run].
  destruct (body res); split; reflexivity.
Qed.

(** Extra X9.  When the API does not answer (the fetch is rejected),
    answers with a status that is not ok, or answers with a content type
    that does not mention [application/json], [getComponents] fetches
    [/backend_components.json] next and settles by that answer alone:
    rejected as the fetch is, rejected with [Failed to load components]
    when the status is not ok, and otherwise as its [json()] does,
    whatever its content type. *)
Theorem getComponents_falls_back :
  match net (api ++ lit "/components") with
  | Rejected _ => True
  | Fulfilled res =>
      ok res = false
      \/ ~ substring (lit "application/json")
             (match content_type res with Some s => s | None => [] end)
  end ->
  fetched net (getComponents api)
  = [api ++ lit "/components"; lit "/backend_components.json"]
  /\ run net (getComponents api)
     = match net (lit "/backend_components.json") with
       | Rejected reason => Rejected reason
       | Fulfilled fallbackRes =>
           if ok fallbackRes
           then match body fallbackRes with
                | Some l => Fulfilled l
                | None => Rejected (lit "SyntaxError")
                end
           else Rejected (lit "Failed to load components")
       end.
Proof.
  intro H.
  unfold getComponents, fetch, json. cbn [bind try_catch fetched run].
  destruct (net (api ++ lit "/components")) as [res|reason].
  - assert (G : negb (ok res)
                || negb (includes
                           match content_type res with Some s => s | None => [] end
                           (lit "application/json")) = true).
    { destruct H as [H|H]; [now rewrite H|].
      destruct (includes _ _) eqn:I; [|apply orb_true_r].
      apply includes_iff in I. contradiction. }
    cbn [bind try_catch fetched run]. rewrite G.
    cbn [bind try_catch fetched run].
    destruct (net (lit "/backend_components.json")) as [fb|reason];
      cbn [bind try_catch fetched run]; [|split; reflexivity].
    destruct (ok fb); cbn [negb bind try_catch fetched run];
      [|split; reflexivity].
    destruct (body fb); split; reflexivity.
  - cbn [bind try_catch fetched run].
    destruct (net (lit "/backend_components.json")) as [fb|reason'];
      cbn [bind try_catch fetched run]; [|split; reflexivity].
    destruct (ok fb); cbn [negb bind try_catch fetched run];
      [|split; reflexivity].
    destruct (body fb); split; reflexivity.
Qed.

(** Extra X10.  Whatever the network does, [getComponents] fetches
    [API_URL/components] first and at most [/backend_components.json]
    after it, and [getComponentsStructured] and [getRecommendedBuild]
    fetch what [getComponents] fetches and nothing more. *)
Theorem catalog_fetches (budget : PrimFloat.float)
  (useCase performance : option jsstring) :
  (fetched net (getComponents api) = [api ++ lit "/components"]
   \/ fetched net (getComponents api)
      = [api ++ lit "/components"; lit "/backend_components.json"])
  /\ fetched net (getComponentsStructured api) = fetched net (getComponents api)
  /\ fetched net (getRecommendedBuild api budget useCase performance)
     = fetched net (getComponents api).
Proof.
  split; [|split].
  - unfold getComponents, fetch, json. cbn [bind try_catch fetched run].
    destruct (net (api ++ lit "/components")) as [res|reason];
      cbn [bind try_catch fetched run].
    + destruct (negb (ok res) || _); cbn [bind try_catch fetched run].
      * right.
        destruct (net (lit "/backend_components.json")) as [fb|reason'];
          cbn [bind try_catch fetched run]; [|reflexivity].
        destruct (negb (ok fb)); cbn [bind try_catch fetched run];
          [reflexivity|].
        now destruct (body fb).
      * left. now destruct (body res).
    + right.
      destruct (net (lit "/backend_components.json")) as [fb|reason'];
        cbn [bind try_catch fetched run]; [|reflexivity].
      destruct (negb (ok fb)); cbn [bind try_catch fetched run];
        [reflexivity|].
      now destruct (body fb).
  - unfold getComponentsStructured. rewrite fetched_bind.
    destruct (run net (getComponents api)); cbn [fetched]; apply app_nil_r.
  - unfold getRecommendedBuild, getComponentsStructured.
    rewrite !fetched_bind, run_bind.
    destruct (run net (getComponents api)); cbn [fetched run];
      now rewrite !app_nil_r.
Qed.

End Protocol.

(* ================================================================== *)
(** * The catalog index and the figures of the home page *)

Lemma keys_push_grouped (g : CatalogIndex) (c : Component) :
  keys (push_grouped g c)
  = if existsb (Category_eqb (category c)) (keys g) then keys g
    else keys g ++ [category c].
Proof.
  unfold keys. induction g as [|[k l] r IH]; [reflexivity|].
  cbn [push_grouped map fst existsb].
  destruct (Category_eqb k (category c)) eqn:E.
  - apply Category_eqb_eq in E. subst k.
    now rewrite Category_eqb_refl.
  - assert (E' : Category_eqb (category c) k = false).
    { apply Category_eqb_neq. intro X. rewrite <- X in E.
      now rewrite Category_eqb_refl in E. }
    rewrite E'. cbn [map fst orb]. rewrite IH.
    now destruct (existsb (Category_eqb (category c)) (map fst r)).
Qed.

Lemma existsb_Category (k : Category) (l : list Category) :
  existsb (Category_eqb k) l = true <-> In k l.
Proof.
  rewrite existsb_exists. split.
  - intros (x & Hx & E). apply Category_eqb_eq in E. now subst x.
  - intro H. exists k. split; [exact H | apply Category_eqb_refl].
Qed.

Lemma keys_push_NoDup (g : CatalogIndex) (c : Component) :
  NoDup (keys g) -> NoDup (keys (push_grouped g c)).
Proof.
  intro H. rewrite keys_push_grouped.
  destruct (existsb (Category_eqb (category c)) (keys g)) eqn:E; [exact H|].
  apply NoDup_app; [exact H | repeat constructor; intros [] |].
  intros k Hk [<-|[]].
  apply existsb_Category in Hk. congruence.
Qed.

Lemma keys_fold_push_NoDup (l : list Component) (acc : CatalogIndex) :
  NoDup (keys acc) -> NoDup (keys (fold_left push_grouped l acc)).
Proof.
  revert acc. induction l as [|c l IH]; intros acc H; [exact H|].
  cbn [fold_left]. apply IH. now apply keys_push_NoDup.
Qed.

Lemma keys_fold_push_In (l : list Component) (acc : CatalogIndex) (k : Category) :
  In k (keys (fold_left push_grouped l acc))
  <-> In k (keys acc) \/ exists c, In c l /\ category c = k.
Proof.
  revert acc. induction l as [|c l IH]; intro acc; cbn [fold_left].
  - split; [now left | intros [H|(c & [] & _)]; exact H].
  - rewrite IH, keys_push_grouped.
    destruct (existsb (Category_eqb (category c)) (keys acc)) eqn:E.
    + apply existsb_Category in E. split.
      * intros [H|(c' & H & Ek)]; [now left | right; exists c'; split; auto].
        now right.
      * intros [H|(c' & [->|H] & Ek)]; [now left | left; now subst k |].
        right. eauto.
    + rewrite in_app_iff. cbn [In]. split.
      * intros [[H|[H|[]]]|(c' & H & Ek)]; [now left | | ].
        -- right. exists c. split; [now left | exact H].
        -- right. exists c'. split; [now right | exact Ek].
      * intros [H|(c' & [->|H] & Ek)]; [now left; left | left; right; now left |].
        right. eauto.
Qed.

Lemma list_sum_cons (a : nat) (l : list nat) :
  list_sum (a :: l) = (a + list_sum l)%nat.
Proof. reflexivity. Qed.

Lemma fold_left_sum {A : Type} (f : A -> nat) (l : list A) (a : nat) :
  fold_left (fun sum k => (sum + f k)%nat) l a = (a + list_sum (map f l))%nat.
Proof.
  revert a. induction l as [|x l IH]; intro a; cbn [fold_left map list_sum].
  - now rewrite Nat.add_0_r.
  - rewrite IH, list_sum_cons. lia.
Qed.

Lemma lookup_own_keys (g : CatalogIndex) :
  NoDup (keys g) ->
  map (fun k => match lookup g k with
                | Some l => List.length l
                | None => 0%nat
                end) (keys g)
  = map (fun e => List.length (snd e)) g.
Proof.
  unfold keys. induction g as [|[k l] r IH]; intro H; [reflexivity|].
  cbn [map fst] in *. apply NoDup_cons_iff in H. destruct H as [Hk H].
  cbn [lookup snd]. rewrite Category_eqb_refl. f_equal.
  rewrite <- (IH H). apply map_ext_in. intros k' Hk'.
  rewrite Category_eqb_neq; [reflexivity|]. intros ->. contradiction.
Qed.

Lemma list_sum_push (g : CatalogIndex) (c : Component) :
  list_sum (map (fun e => List.length (snd e)) (push_grouped g c))
  = S (list_sum (map (fun e => List.length (snd e)) g)).
Proof.
  induction g as [|[k l] r IH]; [reflexivity|].
  cbn [push_grouped]. destruct (Category_eqb k (category c));
    cbn [map snd]; rewrite !list_sum_cons.
  - rewrite length_app. cbn [List.length]. lia.
  - rewrite IH. lia.
Qed.

Lemma list_sum_fold_push (l : list Component) (acc : CatalogIndex) :
  list_sum (map (fun e => List.length (snd e)) (fold_left push_grouped l acc))
  = (list_sum (map (fun e => List.length (snd e)) acc) + List.length l)%nat.
Proof.
  revert acc. induction l as [|c l IH]; intro acc; cbn [fold_left List.length].
  - now rewrite Nat.add_0_r.
  - rewrite IH, list_sum_push. lia.
Qed.

(** Extra X11.  The index built by [getComponentsStructured] has one key
    for each category that occurs in the fetched list and no other, no
    key twice, and under each key the components of that category in the
    order of the list.  So the two figures of [HeroStats] are the number
    of distinct categories of the list and the length of the list: every
    component is counted once. *)
Theorem grouped_by_category_index (catalog : list Component) :
  let grouped := grouped_by_category catalog in
  NoDup (keys grouped)
  /\ (forall k, In k (keys grouped) <-> exists c, In c catalog /\ category c = k)
  /\ (forall k, components_of grouped k
                = filter (fun c => Category_eqb (category c) k) catalog)
  /\ HeroStats_total grouped = List.length catalog
  /\ HeroStats_categories grouped
     = List.length (nodup Category_eq_dec (map category catalog)).
Proof.
  intro grouped. unfold grouped, grouped_by_category.
  assert (ND : NoDup (keys (fold_left push_grouped catalog []))).
  { apply keys_fold_push_NoDup. constructor. }
  split; [exact ND|]. split; [|split; [|split]].
  - intro k. rewrite keys_fold_push_In. cbn [keys map In]. tauto.
  - intro k. apply components_of_grouped.
  - unfold HeroStats_total. rewrite fold_left_sum, lookup_own_keys by exact ND.
    now rewrite list_sum_fold_push.
  - unfold HeroStats_categories. apply Permutation_length.
    apply NoDup_Permutation; [exact ND | apply NoDup_nodup |].
    intro k. rewrite nodup_In, keys_fold_push_In, in_map_iff.
    cbn [keys map In]. split.
    + intros [[]|(c & Hc & E)]. eauto.
    + intros (c & E & Hc). right. eauto.
Qed.

(* ================================================================== *)
(** * More on the build advisor *)

Lemma keys_assign {V : Type} (m : list (Category * V)) (k : Category) (v : V) :
  keys (assign m k v)
  = if existsb (Category_eqb k) (keys m) then keys m else keys m ++ [k].
Proof.
  unfold keys. induction m as [|[k' v'] r IH]; [reflexivity|].
  cbn [assign map fst existsb].
  destruct (Category_eqb k' k) eqn:E.
  - apply Category_eqb_eq in E. subst k'. now rewrite Category_eqb_refl.
  - assert (E' : Category_eqb k k' = false).
    { apply Category_eqb_neq. intro X. rewrite X in E.
      now rewrite Category_eqb_refl in E. }
    rewrite E'. cbn [map fst orb]. rewrite IH.
    now destruct (existsb (Category_eqb k) (map fst r)).
Qed.

Lemma keys_fold_pick (db : CatalogIndex) (budget : PrimFloat.float)
  (entries : list (Category * PrimFloat.float)) :
  NoDup (map fst entries) ->
  forall acc,
    (forall k, In k (map fst entries) -> ~ In k (keys acc)) ->
    keys (fold_left (pick db budget) entries acc)
    = keys acc
      ++ map fst
           (filter (fun e => match affordable db budget (fst e) (snd e) with
                             | [] => false
                             | _ :: _ => true
                             end) entries).
Proof.
  induction entries as [|[k pct] r IH]; intros ND acc Hacc.
  - cbn [fold_left filter map]. now rewrite app_nil_r.
  - cbn [map fst] in ND, Hacc. apply NoDup_cons_iff in ND.
    destruct ND as [Hk ND].
    cbn [fold_left filter fst snd]. unfold pick at 2.
    destruct (affordable db budget k pct) as [|best rest].
    + apply IH; [exact ND|]. intros k' Hk'. apply Hacc. now right.
    + rewrite IH; [|exact ND|].
      * rewrite keys_assign.
        destruct (existsb (Category_eqb k) (keys acc)) eqn:E.
        { apply existsb_Category in E. elim (Hacc k); [now left | exact E]. }
        cbn [map fst]. now rewrite <- app_assoc.
      * intros k' Hk'. rewrite keys_assign.
        destruct (existsb (Category_eqb k) (keys acc)).
        { apply Hacc. now right. }
        rewrite in_app_iff. intros [H|[<-|[]]]; [|contradiction].
        revert H. apply Hacc. now right.
Qed.

Lemma affordable_sort_survivors (catalog : list Component)
  (budget : PrimFloat.float) (k : Category) (fraction : PrimFloat.float) :
  affordable (grouped_by_category catalog) budget k fraction
  = sort by_price_desc
      (map with_lowestPrice (survivors catalog budget k fraction)).
Proof.
  unfold affordable, survivors.
  now rewrite filter_within_map, components_of_grouped.
Qed.

Lemma affordable_none_iff (catalog : list Component)
  (budget : PrimFloat.float) (k : Category) (fraction : PrimFloat.float) :
  match affordable (grouped_by_category catalog) budget k fraction with
  | [] => false
  | _ :: _ => true
  end
  = match survivors catalog budget k fraction with
    | [] => false
    | _ :: _ => true
    end.
Proof.
  pose proof (affordable_survivors catalog budget k fraction) as P.
  destruct (affordable (grouped_by_category catalog) budget k fraction).
  - apply Permutation_nil in P.
    now destruct (survivors catalog budget k fraction).
  - destruct (survivors catalog budget k fraction); [|reflexivity].
    apply Permutation_sym, Permutation_nil in P. discriminate P.
Qed.

Lemma sort_first_dearest (l : list Recommended) :
  forall best rest,
    sort by_price_desc l = best :: rest ->
    exists earlier later,
      l = earlier ++ best :: later
      /\ (forall z, In z earlier ->
            number (lowestPrice z) < number (lowestPrice best))
      /\ (forall z, In z later ->
            number (lowestPrice z) <= number (lowestPrice best)).
Proof.
  induction l as [|x l IH]; intros best rest E; [discriminate E|].
  cbn [sort fold_right] in E. fold (sort by_price_desc l) in E.
  destruct (sort by_price_desc l) as [|y r] eqn:S.
  - assert (l = []) as ->.
    { pose proof (sort_Permutation by_price_desc l) as P. rewrite S in P.
      now apply Permutation_nil in P. }
    cbn [insert] in E. injection E as <- <-.
    exists [], []. repeat split; intros z [].
  - destruct (IH y r eq_refl) as (pre & post & El & Hpre & Hpost).
    cbn [insert] in E.
    destruct (Qltb 0 (by_price_desc x y)) eqn:L.
    + apply Qltb_lt in L. unfold by_price_desc in L.
      injection E as <- _.
      exists (x :: pre), post. split; [now rewrite El|]. split.
      * intros z [<-|Hz]; [lra | now apply Hpre].
      * exact Hpost.
    + apply Qltb_ge in L. unfold by_price_desc in L.
      injection E as <- _.
      exists [], l. split; [reflexivity|]. split; [intros z []|].
      intros z Hz. rewrite El in Hz. apply in_app_or in Hz.
      destruct Hz as [Hz|[<-|Hz]].
      * specialize (Hpre z Hz). lra.
      * lra.
      * specialize (Hpost z Hz). lra.
Qed.

(** Extra X12.  The recommended build has an entry for exactly the
    categories of the allocation profile that have a survivor, in the
    order of the profile; a monitor is never recommended, and at most
    seven categories are. *)
Theorem recommend_keys (catalog : list Component) (budget : PrimFloat.float)
  (useCase : jsstring) :
  let recommendations := recommend (grouped_by_category catalog) budget useCase in
  keys recommendations
  = map fst
      (filter (fun e => match survivors catalog budget (fst e) (snd e) with
                        | [] => false
                        | _ :: _ => true
                        end)
         (alloc_entries useCase))
  /\ ~ In Monitor (keys recommendations)
  /\ (List.length recommendations <= 7)%nat.
Proof.
  intro recommendations. unfold recommendations, recommend.
  assert (E : keys (fold_left (pick (grouped_by_category catalog) budget)
                      (alloc_entries useCase) [])
              = map fst
                  (filter (fun e => match survivors catalog budget (fst e) (snd e)
                                    with [] => false | _ :: _ => true end)
                     (alloc_entries useCase))).
  { rewrite keys_fold_pick;
      [|apply alloc_entries_NoDup | intros k _ []].
    cbn [keys map app]. f_equal. apply filter_ext.
    intros [k pct]. apply affordable_none_iff. }
  split; [exact E|].
  assert (Hsub : forall k, In k (keys (fold_left
                                         (pick (grouped_by_category catalog) budget)
                                         (alloc_entries useCase) [])) ->
                           In k (map fst (alloc_entries useCase))).
  { intros k Hk. rewrite E in Hk. apply in_map_iff in Hk.
    destruct Hk as (e & <- & He). apply filter_In in He.
    apply in_map. tauto. }
  split.
  - intro H. apply Hsub in H. revert H. unfold alloc_entries.
    repeat case_guard; cbn; intuition discriminate.
  - rewrite <- (length_map fst). fold (keys (fold_left
                                         (pick (grouped_by_category catalog) budget)
                                         (alloc_entries useCase) [])).
    rewrite E, length_map.
    eapply Nat.le_trans; [apply filter_length_le|].
    unfold alloc_entries. repeat case_guard; cbn; lia.
Qed.

(** Extra X13.  When several survivors of a category share the highest
    lowest price, the one recommended is the first of them in the order
    of the catalog: every survivor placed before the recommended
    component is strictly cheaper, and every one placed after it is
    cheaper or of the same price. *)
Theorem recommend_first_dearest (catalog : list Component)
  (budget : PrimFloat.float) (useCase : jsstring) (k : Category)
  (fraction : PrimFloat.float) (best : Recommended) :
  In (k, fraction) (alloc_entries useCase) ->
  lookup (recommend (grouped_by_category catalog) budget useCase) k = Some best ->
  exists earlier later,
    survivors catalog budget k fraction = earlier ++ component best :: later
    /\ (forall c, In c earlier ->
          number (getLowestPrice c) < number (lowestPrice best))
    /\ (forall c, In c later ->
          number (getLowestPrice c) <= number (lowestPrice best)).
Proof.
  intros Hin Hl. unfold recommend in Hl.
  rewrite (lookup_fold_pick _ budget _ k fraction (alloc_entries_NoDup _) Hin)
    in Hl.
  rewrite affordable_sort_survivors in Hl.
  destruct (sort by_price_desc
              (map with_lowestPrice (survivors catalog budget k fraction)))
    as [|b rest] eqn:S; [discriminate Hl|].
  injection Hl as ->.
  destruct (sort_first_dearest _ _ _ S) as (pre & post & E & Hpre & Hpost).
  apply map_eq_app in E. destruct E as (pre' & tl & E & <- & E2).
  apply map_eq_cons in E2. destruct E2 as (c0 & post' & -> & <- & <-).
  exists pre', post'. split; [exact E|]. split.
  - intros c Hc. apply (Hpre (with_lowestPrice c)). now apply in_map.
  - intros c Hc. apply (Hpost (with_lowestPrice c)). now apply in_map.
Qed.

(* ================================================================== *)
(** * More on the search *)

Lemma filter_all {A : Type} (f : A -> bool) (l : list A) :
  (forall x, In x l -> f x = true) -> filter f l = l.
Proof.
  induction l as [|x l IH]; intro H; [reflexivity|].
  cbn [filter]. rewrite (H x) by now left.
  rewrite IH; [reflexivity|]. intros y Hy. apply H. now right.
Qed.

Lemma filter_none {A : Type} (f : A -> bool) (l : list A) :
  (forall x, In x l -> f x = false) -> filter f l = [].
Proof.
  induction l as [|x l IH]; intro H; [reflexivity|].
  cbn [filter]. rewrite (H x) by now left.
  apply IH. intros y Hy. apply H. now right.
Qed.

Section SearchMore.

Variable toLowerCase : jsstring -> jsstring.

(** Extra X14.  Searching the result of a search again with the same
    query changes nothing, and a search never adds a component: the
    result is a rearrangement of a part of the input, every member of
    which was a member of the input. *)
Theorem fuzzySearch_idempotent (query : jsstring) (components : list Component) :
  fuzzySearch toLowerCase query (fuzzySearch toLowerCase query components)
  = fuzzySearch toLowerCase query components
  /\ (forall c, In c (fuzzySearch toLowerCase query components) ->
                In c components)
  /\ (List.length (fuzzySearch toLowerCase query components)
      <= List.length components)%nat.
Proof.
  destruct query as [|u q]; [repeat split; auto|].
  unfold fuzzySearch.
  set (query := u :: q).
  set (M := matches_terms toLowerCase (split_ws (toLowerCase query))).
  set (E := exact toLowerCase query).
  rewrite !sort_exact_first. fold E.
  set (l := filter M components).
  assert (HM : filter M (filter E l ++ filter (fun c => negb (E c)) l)
               = filter E l ++ filter (fun c => negb (E c)) l).
  { apply filter_all. intros x Hx. apply in_app_or in Hx.
    destruct Hx as [Hx|Hx]; apply filter_In in Hx; destruct Hx as [Hx _];
      apply filter_In in Hx; tauto. }
  split; [|split].
  - rewrite HM, !filter_app.
    rewrite (filter_all E (filter E l))
      by (intros x Hx; apply filter_In in Hx; tauto).
    rewrite (filter_none E (filter (fun c => negb (E c)) l))
      by (intros x Hx; apply filter_In in Hx; destruct Hx as [_ Hx];
          now apply negb_true_iff in Hx).
    rewrite (filter_none (fun c => negb (E c)) (filter E l))
      by (intros x Hx; apply filter_In in Hx; destruct Hx as [_ Hx];
          now rewrite Hx).
    rewrite (filter_all (fun c => negb (E c)) (filter (fun c => negb (E c)) l))
      by (intros x Hx; apply filter_In in Hx; tauto).
    now rewrite app_nil_r.
  - intros c Hc. apply in_app_or in Hc.
    destruct Hc as [Hc|Hc]; apply filter_In in Hc; destruct Hc as [Hc _];
      apply filter_In in Hc; tauto.
  - rewrite length_app.
    assert (H : forall m : list Component,
               (List.length (filter E m)
                + List.length (filter (fun c => negb (E c)) m)
                = List.length m)%nat).
    { induction m as [|x m IHm]; [reflexivity|].
      cbn [filter]. destruct (E x); cbn [negb List.length]; lia. }
    rewrite H. apply filter_length_le.
Qed.

End SearchMore.

(* ================================================================== *)
(** * Favorites and the compare list *)

Lemma Array_includes_In (uids : list jsstring) (x : jsstring) :
  Array_includes uids x = true <-> In x uids.
Proof.
  unfold Array_includes. rewrite existsb_exists. split.
  - intros (y & Hy & E). apply jsstring_eqb_eq in E. now subst y.
  - intro H. exists x. split; [exact H | now apply jsstring_eqb_eq].
Qed.

Lemma Array_includes_iff (a b : list jsstring) (x : jsstring) :
  (In x a <-> In x b) -> Array_includes a x = Array_includes b x.
Proof.
  intro H. destruct (Array_includes a x) eqn:A, (Array_includes b x) eqn:B;
    try reflexivity.
  - apply Array_includes_In in A. apply H in A.
    apply Array_includes_In in A. congruence.
  - apply Array_includes_In in B. apply H in B.
    apply Array_includes_In in B. congruence.
Qed.

Lemma jsstring_eqb_neq (a b : jsstring) : jsstring_eqb a b = false <-> a <> b.
Proof.
  split.
  - intros E H. apply jsstring_eqb_eq in H. congruence.
  - intro H. destruct (jsstring_eqb a b) eqn:E; [|reflexivity].
    apply jsstring_eqb_eq in E. contradiction.
Qed.

Lemma In_without (uids : list jsstring) (wanted x : jsstring) :
  In x (filter (fun y => negb (jsstring_eqb y wanted)) uids)
  <-> In x uids /\ x <> wanted.
Proof.
  rewrite filter_In, negb_true_iff, jsstring_eqb_neq. reflexivity.
Qed.

(** Extra X15.  [toggleFavorite] flips the membership of the given uid
    and of no other: afterwards the uid is a favorite exactly when it
    was not one before, and every other uid is one exactly when it was.
    A list without repetition stays without repetition. *)
Theorem toggleFavorite_flips (wanted x : jsstring) (uids : list jsstring) :
  Array_includes (toggleFavorite wanted uids) x
  = (if jsstring_eqb x wanted then negb (Array_includes uids wanted)
     else Array_includes uids x)
  /\ (NoDup uids -> NoDup (toggleFavorite wanted uids)).
Proof.
  unfold toggleFavorite. split.
  - destruct (Array_includes uids wanted) eqn:W.
    + destruct (jsstring_eqb x wanted) eqn:E.
      * apply jsstring_eqb_eq in E. subst x. cbn [negb].
        destruct (Array_includes (filter _ uids) wanted) eqn:A; [|reflexivity].
        apply Array_includes_In, In_without in A. now destruct A.
      * apply jsstring_eqb_neq in E. apply Array_includes_iff.
        rewrite In_without. tauto.
    + destruct (jsstring_eqb x wanted) eqn:E.
      * apply jsstring_eqb_eq in E. subst x. cbn [negb].
        apply Array_includes_In, in_or_app. right. now left.
      * apply jsstring_eqb_neq in E. apply Array_includes_iff.
        rewrite in_app_iff. cbn [In]. split; [|tauto].
        intros [H|[H|[]]]; [exact H | congruence].
  - intro ND. destruct (Array_includes uids wanted) eqn:W.
    + now apply NoDup_filter.
    + apply NoDup_app; [exact ND | repeat constructor; intros [] |].
      intros y Hy [<-|[]]. apply Array_includes_In in Hy. congruence.
Qed.

(** Extra X16.  The compare list never grows beyond three:
    [toggleCompare] keeps a list of at most three uids at most three
    long and a list without repetition without repetition, removes the
    uid when it is listed, adds it when it is not and fewer than three
    are listed, and leaves a full list that does not hold the uid as it
    is. *)
Theorem toggleCompare_at_most_three (wanted : jsstring) (uids : list jsstring) :
  ((List.length uids <= 3)%nat ->
   (List.length (toggleCompare wanted uids) <= 3)%nat)
  /\ (NoDup uids -> NoDup (toggleCompare wanted uids))
  /\ (In wanted uids -> ~ In wanted (toggleCompare wanted uids))
  /\ (~ In wanted uids -> (List.length uids < 3)%nat ->
      toggleCompare wanted uids = uids ++ [wanted])
  /\ (~ In wanted uids -> (3 <= List.length uids)%nat ->
      toggleCompare wanted uids = uids).
Proof.
  unfold toggleCompare.
  destruct (Array_includes uids wanted) eqn:W.
  - apply Array_includes_In in W. repeat split.
    + intro H. eapply Nat.le_trans; [apply filter_length_le | exact H].
    + intro ND. now apply NoDup_filter.
    + intros _ H. apply In_without in H. now destruct H.
    + contradiction.
    + contradiction.
  - assert (N : ~ In wanted uids).
    { intro H. apply Array_includes_In in H. congruence. }
    destruct (3 <=? List.length uids)%nat eqn:L.
    + apply Nat.leb_le in L. repeat split; auto; try contradiction.
      intros _ H. lia.
    + apply Nat.leb_gt in L. repeat split; auto; try contradiction.
      * intros _. rewrite length_app. cbn [List.length]. lia.
      * intro ND. apply NoDup_app; [exact ND | repeat constructor; intros [] |].
        intros y Hy [<-|[]]. contradiction.
      * intros _ H. lia.
Qed.

(* ================================================================== *)
(** * The current build *)

Lemma slot_set_slot (b : Build) (k k' : Category) (item : option Component) :
  slot (set_slot b k item) k' = if Category_eqb k k' then item else slot b k'.
Proof. now destruct k, k'. Qed.

(** Extra X17.  [addToBuild] and [removeItem] touch the slot of the
    given category and no other.  After [addToBuild(category, id)] the
    slot holds the first component of that category in the catalog whose
    id is [id]; when the category has no component with that id the slot
    is left holding no component, whatever it held before. *)
Theorem addToBuild_slot (db : CatalogIndex) (k k' : Category)
  (wanted : jsstring) (b : Build) :
  slot (addToBuild db k wanted b) k'
  = (if Category_eqb k k'
     then find (fun i => jsstring_eqb (id i) wanted) (components_of db k)
     else slot b k')
  /\ slot (removeItem k b) k' = (if Category_eqb k k' then None else slot b k')
  /\ ((forall i, In i (components_of db k) -> id i <> wanted) ->
      slot (addToBuild db k wanted b) k = None)
  /\ (forall item, slot (addToBuild db k wanted b) k = Some item ->
        In item (components_of db k) /\ id item = wanted).
Proof.
  unfold addToBuild, removeItem. rewrite !slot_set_slot.
  split; [reflexivity|]. split; [reflexivity|].
  rewrite Category_eqb_refl. split.
  - intro H.
    destruct (find (fun i => jsstring_eqb (id i) wanted) (components_of db k))
      as [i|] eqn:F; [|reflexivity].
    apply find_some in F. destruct F as [Hi E].
    apply jsstring_eqb_eq in E. elim (H i Hi E).
  - intros item F. apply find_some in F. destruct F as [Hi E].
    apply jsstring_eqb_eq in E. auto.
Qed.

(** Extra X18.  The compatibility findings after a slot is emptied: with
    the cpu or the motherboard removed the build is reported compatible,
    and with the psu removed no power finding is left, whatever the
    other slots hold. *)
Theorem removeItem_clears_findings
  (toLowerCase : jsstring -> jsstring) (b : Build) :
  isCompatible (checkCompatibility toLowerCase (removeItem CPU b)) = true
  /\ isCompatible (checkCompatibility toLowerCase (removeItem Motherboard b))
     = true
  /\ (forall f, In f (warnings (checkCompatibility toLowerCase
                                  (removeItem PSU b))) ->
                type f <> power_type).
Proof.
  split; [|split].
  - rewrite isCompatible_socket_check. reflexivity.
  - rewrite isCompatible_socket_check. unfold socket_check, removeItem.
    cbn [set_slot cpu motherboard]. now destruct (cpu b).
  - intros f Hf. rewrite warnings_checkCompatibility in Hf.
    apply in_app_or in Hf. destruct Hf as [Hf|Hf].
    { apply socket_check_type in Hf. destruct Hf as [Hf _]. congruence. }
    apply in_app_or in Hf. destruct Hf as [Hf|Hf].
    { apply ram_check_type in Hf. destruct Hf as [Hf _]. congruence. }
    contradiction.
Qed.

(* ================================================================== *)
(** * Saved builds *)

Lemma SavedId_eqb_eq (a b : SavedId) : SavedId_eqb a b = true <-> a = b.
Proof.
  destruct a as [x|x], b as [y|y]; cbn [SavedId_eqb].
  - rewrite Z.eqb_eq. split; congruence.
  - split; discriminate.
  - split; discriminate.
  - rewrite jsstring_eqb_eq. split; congruence.
Qed.

Lemma SavedId_eqb_refl (a : SavedId) : SavedId_eqb a a = true.
Proof. now apply SavedId_eqb_eq. Qed.


(** Extra X19.  Saving on the device puts the new entry first and keeps
    at most fifty entries, dropping the oldest beyond that; the build
    just saved is the one [loadSavedById] loads for its id once the
    dialog is confirmed, and a dismissed dialog leaves the current build
    as it is. *)
Theorem saveBuild_local_newest_first (entry : Saved.t) (saved : list Saved.t)
  (currentBuild : Build) :
  saveBuild_local entry saved = entry :: firstn 49 saved
  /\ (List.length (saveBuild_local entry saved) <= 50)%nat
  /\ loadSavedById (saveBuild_local entry saved) (Saved.id entry) true
       currentBuild
     = Saved.items entry
  /\ loadSavedById (saveBuild_local entry saved) (Saved.id entry) false
       currentBuild
     = currentBuild.
Proof.
  unfold saveBuild_local. split; [reflexivity|]. split.
  - apply firstn_le_length.
  - change (firstn 50 (entry :: saved)) with (entry :: firstn 49 saved).
    unfold loadSavedById. cbn [find]. rewrite SavedId_eqb_refl.
    split; reflexivity.
Qed.




(* ================================================================== *)
(** * Share links read back *)















(* ================================================================== *)
(** * Wattage texts *)

Lemma parse_digits_stop (acc : option Z) (suffix : jsstring) :
  match suffix with [] => True | u :: _ => digit_value 10 u = None end ->
  parse_digits 10 acc suffix = acc.
Proof.
  destruct suffix as [|u r]; [reflexivity|].
  intro H. cbn [parse_digits]. now rewrite H.
Qed.

Lemma parse_digits_acc (l : Decimal.uint) (suffix : jsstring) :
  match suffix with [] => True | u :: _ => digit_value 10 u = None end ->
  forall p,
    parse_digits 10 (Some (Z.pos p))
      (lit (NilEmpty.string_of_uint l) ++ suffix)
    = Some (Z.pos (Pos.of_uint_acc l p)).
Proof.
  intro Hs. induction l as [|l IH|l IH|l IH|l IH|l IH|l IH|l IH|l IH|l IH|l IH];
    intro p;
    [ now apply parse_digits_stop
    | change (lit (NilEmpty.string_of_uint (Decimal.D0 l)))
        with (48%N :: lit (NilEmpty.string_of_uint l))
    | change (lit (NilEmpty.string_of_uint (Decimal.D1 l)))
        with (49%N :: lit (NilEmpty.string_of_uint l))
    | change (lit (NilEmpty.string_of_uint (Decimal.D2 l)))
        with (50%N :: lit (NilEmpty.string_of_uint l))
    | change (lit (NilEmpty.string_of_uint (Decimal.D3 l)))
        with (51%N :: lit (NilEmpty.string_of_uint l))
    | change (lit (NilEmpty.string_of_uint (Decimal.D4 l)))
        with (52%N :: lit (NilEmpty.string_of_uint l))
    | change (lit (NilEmpty.string_of_uint (Decimal.D5 l)))
        with (53%N :: lit (NilEmpty.string_of_uint l))
    | change (lit (NilEmpty.string_of_uint (Decimal.D6 l)))
        with (54%N :: lit (NilEmpty.string_of_uint l))
    | change (lit (NilEmpty.string_of_uint (Decimal.D7 l)))
        with (55%N :: lit (NilEmpty.string_of_uint l))
    | change (lit (NilEmpty.string_of_uint (Decimal.D8 l)))
        with (56%N :: lit (NilEmpty.string_of_uint l))
    | change (lit (NilEmpty.string_of_uint (Decimal.D9 l)))
        with (57%N :: lit (NilEmpty.string_of_uint l)) ];
    cbn [app parse_digits];
    match goal with
    | |- context [digit_value 10 ?u] =>
        let d := eval vm_compute in (digit_value 10 u) in
        change (digit_value 10 u) with d
    end;
    cbn iota; cbn [Pos.of_uint_acc];
    match goal with
    | |- parse_digits 10 (Some ?z) _ = Some (Z.pos (Pos.of_uint_acc l ?q)) =>
        replace z with (Z.pos q) by lia
    end;
    apply IH.
Qed.

Lemma parse_digits_zero (l : Decimal.uint) (suffix : jsstring) :
  match suffix with [] => True | u :: _ => digit_value 10 u = None end ->
  parse_digits 10 (Some 0%Z) (lit (NilEmpty.string_of_uint l) ++ suffix)
  = Some (Z.of_N (Pos.of_uint l)).
Proof.
  intro Hs. induction l as [|l IH|l IH|l IH|l IH|l IH|l IH|l IH|l IH|l IH|l IH];
    [ now apply parse_digits_stop
    | change (lit (NilEmpty.string_of_uint (Decimal.D0 l)))
        with (48%N :: lit (NilEmpty.string_of_uint l))
    | change (lit (NilEmpty.string_of_uint (Decimal.D1 l)))
        with (49%N :: lit (NilEmpty.string_of_uint l))
    | change (lit (NilEmpty.string_of_uint (Decimal.D2 l)))
        with (50%N :: lit (NilEmpty.string_of_uint l))
    | change (lit (NilEmpty.string_of_uint (Decimal.D3 l)))
        with (51%N :: lit (NilEmpty.string_of_uint l))
    | change (lit (NilEmpty.string_of_uint (Decimal.D4 l)))
        with (52%N :: lit (NilEmpty.string_of_uint l))
    | change (lit (NilEmpty.string_of_uint (Decimal.D5 l)))
        with (53%N :: lit (NilEmpty.string_of_uint l))
    | change (lit (NilEmpty.string_of_uint (Decimal.D6 l)))
        with (54%N :: lit (NilEmpty.string_of_uint l))
    | change (lit (NilEmpty.string_of_uint (Decimal.D7 l)))
        with (55%N :: lit (NilEmpty.string_of_uint l))
    | change (lit (NilEmpty.string_of_uint (Decimal.D8 l)))
        with (56%N :: lit (NilEmpty.string_of_uint l))
    | change (lit (NilEmpty.string_of_uint (Decimal.D9 l)))
        with (57%N :: lit (NilEmpty.string_of_uint l)) ];
    cbn [app parse_digits];
    match goal with
    | |- context [digit_value 10 ?u] =>
        let d := eval vm_compute in (digit_value 10 u) in
        change (digit_value 10 u) with d
    end;
    cbn iota; cbn [Pos.of_uint Z.of_N];
    [ exact IH | .. ];
    match goal with
    | |- parse_digits 10 (Some ?z) _ = Some (Z.pos (Pos.of_uint_acc l ?q)) =>
        replace z with (Z.pos q) by lia
    end;
    now apply parse_digits_acc.
Qed.

Lemma string_of_uint_head (l : Decimal.uint) (suffix : jsstring) :
  match suffix with
  | [] => True
  | u :: _ => digit_value 10 u = None /\ u <> 120%N /\ u <> 88%N
  end ->
  match lit (NilEmpty.string_of_uint l) ++ suffix with
  | [] => True
  | u :: _ => u <> 120%N /\ u <> 88%N
  end.
Proof.
  intro H. destruct l; try (cbn; split; discriminate).
  cbn [NilEmpty.string_of_uint lit list_ascii_of_string map app].
  destruct suffix; [exact I | tauto].
Qed.

(** Extra X23.  [parseInt] reads back the decimal rendering of an
    integer of at most 2^53 in absolute value (the range in which every
    integer is a binary64 value and is rendered by its plain digits),
    also when a unit or any other text that does not start with a
    decimal digit (nor with [x] or [X]) follows it: a wattage written as
    [650W] reads as 650, and the wattage the power finding prints reads
    back as the wattage that was found. *)
Theorem parseInt_reads_rendered_integer (z : Z) (suffix : jsstring) :
  (Z.abs z <= 2 ^ 53)%Z ->
  match suffix with
  | [] => True
  | u :: _ => digit_value 10 u = None /\ u <> 120%N /\ u <> 88%N
  end ->
  parseInt (Some (Z_to_jsstring z ++ suffix)) = Some z.
Proof.
  intros _ Hs.
  assert (Hs' : match suffix with [] => True
                | u :: _ => digit_value 10 u = None end).
  { destruct suffix; tauto. }
  assert (U : forall l : Decimal.uint, l <> Decimal.Nil ->
            forall sign : Z,
              (let '(radix, digits) :=
                 match lit (NilEmpty.string_of_uint l) ++ suffix with
                 | 48%N :: 120%N :: r => (16%Z, r)
                 | 48%N :: 88%N :: r => (16%Z, r)
                 | _ => (10%Z, lit (NilEmpty.string_of_uint l) ++ suffix)
                 end in
               option_map (Z.mul sign) (parse_digits radix None digits))
              = Some (sign * Z.of_N (Pos.of_uint l))%Z).
  { intros l Hl sign.
    assert (P : parse_digits 10 None (lit (NilEmpty.string_of_uint l) ++ suffix)
                = Some (Z.of_N (Pos.of_uint l))).
    { destruct l; try (now elim Hl);
        [ apply (parse_digits_zero (Decimal.D0 l) suffix Hs')
        | apply (parse_digits_acc l suffix Hs' 1%positive)
        | apply (parse_digits_acc l suffix Hs' 2%positive)
        | apply (parse_digits_acc l suffix Hs' 3%positive)
        | apply (parse_digits_acc l suffix Hs' 4%positive)
        | apply (parse_digits_acc l suffix Hs' 5%positive)
        | apply (parse_digits_acc l suffix Hs' 6%positive)
        | apply (parse_digits_acc l suffix Hs' 7%positive)
        | apply (parse_digits_acc l suffix Hs' 8%positive)
        | apply (parse_digits_acc l suffix Hs' 9%positive) ]. }
    destruct l as [|l|l|l|l|l|l|l|l|l|l]; try (now elim Hl);
      try (cbn [NilEmpty.string_of_uint lit list_ascii_of_string map app] in *;
           cbn -[parse_digits Z.mul Pos.of_uint] in *; rewrite P; reflexivity).
    change (lit (NilEmpty.string_of_uint (Decimal.D0 l)))
      with (48%N :: lit (NilEmpty.string_of_uint l)) in *.
    cbn [app] in *.
    pose proof (string_of_uint_head l suffix Hs) as Hh.
    destruct (lit (NilEmpty.string_of_uint l) ++ suffix) as [|u r] eqn:E.
    - rewrite P. reflexivity.
    - destruct Hh as [H1 H2]. destruct u as [|q]; [now rewrite P|].
      do 7 (try (destruct q as [q|q|]; try (now rewrite P))); congruence. }
  unfold parseInt, Z_to_jsstring. cbn [tpl].
  destruct z as [|p|p]; cbn [Z.to_int NilEmpty.string_of_int].
  - change (lit (NilEmpty.string_of_uint Decimal.zero)) with [48%N].
    cbn [app trimStart]. change (is_white_space 48) with false. cbn iota.
    destruct suffix as [|u r]; [reflexivity|].
    destruct Hs as (Hd & H1 & H2).
    assert (P : parse_digits 10 None (48%N :: u :: r) = Some 0%Z).
    { cbn [parse_digits]. change (digit_value 10 48) with (Some 0%Z).
      cbn iota. now rewrite Hd. }
    destruct u as [|q]; [now rewrite P|].
    do 7 (try (destruct q as [q|q|]; try (now rewrite P))); congruence.
  - pose proof (DecimalPos.Unsigned.to_uint_nonnil p) as Hn.
    pose proof (U (Pos.to_uint p) Hn 1%Z) as HU.
    rewrite DecimalPos.Unsigned.of_to in HU.
    destruct (Pos.to_uint p) as [|l|l|l|l|l|l|l|l|l|l] eqn:E;
      try (now elim Hn); exact HU.
  - pose proof (DecimalPos.Unsigned.to_uint_nonnil p) as Hn.
    pose proof (U (Pos.to_uint p) Hn (-1)%Z) as HU.
    rewrite DecimalPos.Unsigned.of_to in HU.
    change (lit (String "-" (NilEmpty.string_of_uint (Pos.to_uint p))))
      with (45%N :: lit (NilEmpty.string_of_uint (Pos.to_uint p))).
    exact HU.
Qed.

(* ================================================================== *)
(** * More on the pricing resolver *)

Lemma getLowestPrice_least (c : Component) :
  match getLowestPrice c with
  | Some p =>
      (exists v, In v (filter eligible (offers c)) /\ price v = p)
      /\ (forall v, In v (filter eligible (offers c)) -> p <= price v)
  | None => filter eligible (offers c) = []
  end.
Proof.
  rewrite getLowestPrice_offers.
  destruct (filter eligible (offers c)) as [|b rest]; [reflexivity|].
  cbn [map]. split.
  - destruct (Math_min_in (map price rest) (price b)) as [E|Hin].
    + exists b. split; [now left | exact E].
    + apply in_map_iff in Hin. destruct Hin as (v & E & Hv).
      exists v. split; [now right | exact E].
  - destruct (Math_min_le (map price rest) (price b)) as [L1 L2].
    intros v [<-|Hv]; [exact L1|]. apply L2. now apply in_map.
Qed.

(** Extra X24.  [getLowestPrice] depends on the eligible offers only,
    and on them as a set: two components with the same offers that are
    in stock and priced above zero have the same lowest price (or both
    none), whatever the order of the offers, however often one is
    repeated and whatever other offers are listed with them. *)
Theorem getLowestPrice_eligible_offers_only (c c' : Component) :
  (forall v, (In v (offers c) /\ inStock v = Some true /\ 0 < price v)
             <-> (In v (offers c') /\ inStock v = Some true /\ 0 < price v)) ->
  match getLowestPrice c, getLowestPrice c' with
  | Some p, Some p' => p == p'
  | None, None => True
  | _, _ => False
  end.
Proof.
  intro H.
  assert (Hf : forall v, In v (filter eligible (offers c))
                         <-> In v (filter eligible (offers c'))).
  { intro v. rewrite !filter_In, eligible_iff. specialize (H v). tauto. }
  pose proof (getLowestPrice_least c) as L.
  pose proof (getLowestPrice_least c') as L'.
  destruct (getLowestPrice c) as [p|], (getLowestPrice c') as [p'|].
  - destruct L as [(v & Hv & E) Hle], L' as [(v' & Hv' & E') Hle'].
    apply Qle_antisym.
    + rewrite <- E'. apply Hle. now apply Hf.
    + rewrite <- E. apply Hle'. now apply Hf.
  - destruct L as [(v & Hv & _) _]. apply Hf in Hv. rewrite L' in Hv.
    contradiction.
  - destruct L' as [(v & Hv & _) _]. apply Hf in Hv. rewrite L in Hv.
    contradiction.
  - exact I.
Qed.

(* ================================================================== *)
(** * The result list of the Browse page *)

Section SearchThenFilter.

Variable toLowerCase : jsstring -> jsstring.

(** Extra X25.  Searching and filtering can be done in either order: the
    components that [filterComponents] keeps of the result of
    [fuzzySearch] are, in the same order, the result of [fuzzySearch] on
    the components that [filterComponents] keeps. *)
Theorem fuzzySearch_filterComponents_commute
  (query : jsstring) (f : Filters.t) (components : list Component) :
  filterComponents toLowerCase (fuzzySearch toLowerCase query components) f
  = fuzzySearch toLowerCase query (filterComponents toLowerCase components f).
Proof.
  rewrite !filterComponents_filter.
  destruct query as [|u q]; [reflexivity|].
  unfold fuzzySearch. rewrite !sort_exact_first, filter_app, !filter_filter.
  f_equal; apply filter_ext; intro c;
    destruct (matches_terms toLowerCase
                (split_ws (toLowerCase (u :: q))) c),
             (passes toLowerCase f c),
             (exact toLowerCase (u :: q) c); reflexivity.
Qed.

End SearchThenFilter.

Section SortByKey.

Variable A : Type.
Variable key : A -> Q.
Variable compareFn : A -> A -> Q.
Hypothesis compareFn_key : forall a b, 0 < compareFn a b <-> key b < key a.

Lemma insert_key_sorted (x : A) (l : list A) :
  StronglySorted (fun a b => key a <= key b) l ->
  StronglySorted (fun a b => key a <= key b) (insert compareFn x l).
Proof.
  induction 1 as [|y r Hr IH Hy]; cbn [insert].
  - repeat constructor.
  - destruct (Qltb 0 (compareFn x y)) eqn:L.
    + apply Qltb_lt, compareFn_key in L.
      constructor; [exact IH|].
      apply Forall_forall. intros z Hz.
      apply (Permutation_in _ (insert_Permutation compareFn x r)) in Hz.
      destruct Hz as [<-|Hz]; [lra|].
      rewrite Forall_forall in Hy. now apply Hy.
    + assert (Hxy : key x <= key y).
      { apply Qnot_lt_le. intro H. apply compareFn_key, Qltb_lt in H.
        congruence. }
      constructor; [now constructor|].
      constructor; [exact Hxy|].
      apply Forall_forall. intros z Hz. rewrite Forall_forall in Hy.
      specialize (Hy z Hz). lra.
Qed.

Lemma sort_key_sorted (l : list A) :
  StronglySorted (fun a b => key a <= key b) (sort compareFn l).
Proof.
  induction l as [|x l IH]; [constructor|].
  cbn [sort fold_right]. now apply insert_key_sorted.
Qed.

Lemma insert_key_stable (k : Q) (x : A) (l : list A) :
  filter (fun c => Qeq_bool (key c) k) (insert compareFn x l)
  = filter (fun c => Qeq_bool (key c) k) (x :: l).
Proof.
  induction l as [|y r IH]; [reflexivity|].
  cbn [insert]. destruct (Qltb 0 (compareFn x y)) eqn:L; [|reflexivity].
  apply Qltb_lt, compareFn_key in L.
  cbn [filter] in *. rewrite IH.
  destruct (Qeq_bool (key x) k) eqn:Ex; [|reflexivity].
  destruct (Qeq_bool (key y) k) eqn:Ey; [|reflexivity].
  apply Qeq_bool_iff in Ex, Ey. lra.
Qed.

Lemma sort_key_stable (k : Q) (l : list A) :
  filter (fun c => Qeq_bool (key c) k) (sort compareFn l)
  = filter (fun c => Qeq_bool (key c) k) l.
Proof.
  induction l as [|x l IH]; [reflexivity|].
  cbn [sort fold_right]. rewrite insert_key_stable.
  cbn [filter]. fold (sort compareFn l). now rewrite IH.
Qed.

End SortByKey.

Lemma StronglySorted_impl {A : Type} (R R' : A -> A -> Prop) (l : list A) :
  (forall a b, R a b -> R' a b) -> StronglySorted R l -> StronglySorted R' l.
Proof.
  intros H. induction 1 as [|x l Hl IH Hx]; constructor; [exact IH|].
  apply Forall_forall. intros y Hy. rewrite Forall_forall in Hx. auto.
Qed.

(** Extra X26.  The two price orders of the Browse page.  [price-low]
    lists the components by ascending lowest price, a component without
    an eligible offer counting as priced 999999; [price-high] lists them
    by descending lowest price, such a component counting as priced 0
    and so coming last.  Both keep every component, and components of
    the same price stay in the order they had. *)
Theorem sort_by_price (r : list Component) (k : Q) :
  (Permutation (sort price_low r) r
   /\ StronglySorted (fun a b => price_or 999999 a <= price_or 999999 b)
        (sort price_low r)
   /\ filter (fun c => Qeq_bool (price_or 999999 c) k) (sort price_low r)
      = filter (fun c => Qeq_bool (price_or 999999 c) k) r)
  /\ (Permutation (sort price_high r) r
      /\ StronglySorted (fun a b => price_or 0 b <= price_or 0 a)
           (sort price_high r)
      /\ filter (fun c => Qeq_bool (price_or 0 c) k) (sort price_high r)
         = filter (fun c => Qeq_bool (price_or 0 c) k) r).
Proof.
  split; (split; [apply sort_Permutation|]).
  - split.
    + apply (sort_key_sorted Component (price_or 999999) price_low).
      intros a b. unfold price_low. split; intro H; lra.
    + apply (sort_key_stable Component (price_or 999999) price_low).
      intros a b. unfold price_low. split; intro H; lra.
  - assert (Hc : forall a b, 0 < price_high a b
                             <-> - price_or 0 b < - price_or 0 a).
    { intros a b. unfold price_high. split; intro H; lra. }
    split.
    + apply (StronglySorted_impl
               (fun a b => - price_or 0 a <= - price_or 0 b)).
      * intros a b H. lra.
      * apply (sort_key_sorted Component (fun c => - price_or 0 c)
                 price_high Hc).
    + pose proof (sort_key_stable Component (fun c => - price_or 0 c)
                    price_high Hc (- k) r) as S.
      cbv beta in S.
      assert (E : forall c, Qeq_bool (- price_or 0 c) (- k)
                            = Qeq_bool (price_or 0 c) k).
      { intro c. destruct (Qeq_bool (price_or 0 c) k) eqn:E1.
        - apply Qeq_bool_iff in E1. apply Qeq_bool_iff. lra.
        - destruct (Qeq_bool (- price_or 0 c) (- k)) eqn:E2; [|reflexivity].
          apply Qeq_bool_iff in E2.
          assert (E3 : price_or 0 c == k) by lra.
          apply Qeq_bool_iff in E3. congruence. }
      rewrite (filter_ext _ _ E (sort price_high r)) in S.
      rewrite (filter_ext _ _ E r) in S. exact S.
Qed.

(* ================================================================== *)
(** * Further instances *)

Lemma filterComponents_unset_witness :
  filterComponents latin1_toLowerCase shelf all_falsy = shelf.
Proof.
  apply (filterComponents_unset latin1_toLowerCase shelf all_falsy).
  - reflexivity.
  - reflexivity.
  - reflexivity.
  - reflexivity.
  - discriminate.
Defined.

Lemma filterComponents_maxPrice_witness :
  exists p, getLowestPrice corsair_supply = Some p /\ 0 < p /\ p <= 9000.
Proof.
  apply (filterComponents_maxPrice latin1_toLowerCase shelf corsair_in_stock
           9000 corsair_supply).
  - reflexivity.
  - intro H. vm_compute in H. discriminate H.
  - vm_compute. right. left. reflexivity.
Defined.

Lemma ram_finding_witness :
  exists f, In f (warnings (checkCompatibility latin1_toLowerCase
                              ram_mismatch_build))
            /\ type f = ram_type.
Proof.
  refine (proj2 (ram_finding_iff_type_not_contained latin1_toLowerCase
                   ram_mismatch_build ddr5_kit board_ddr4 eq_refl eq_refl) _).
  split; [discriminate|]. split; [discriminate|].
  intro S. apply includes_iff in S. vm_compute in S. discriminate S.
Defined.

Lemma power_finding_thresholds_witness :
  power_check underpowered_build <> [].
Proof.
  refine (proj2 (proj1 (power_finding_thresholds underpowered_build supply_300
                          eq_refl)) _).
  split; reflexivity.
Defined.

Lemma getComponents_api_answer_witness :
  fetched (serving two_cpus) (getComponents (lit "/api"))
  = [lit "/api/components"]
  /\ run (serving two_cpus) (getComponents (lit "/api")) = Fulfilled two_cpus.
Proof.
  apply (getComponents_api_answer (lit "/api") (serving two_cpus)
           (json_response two_cpus) (lit "application/json; charset=utf-8")).
  - reflexivity.
  - reflexivity.
  - reflexivity.
  - exists [], (lit "; charset=utf-8"). reflexivity.
Defined.

Lemma getComponents_falls_back_witness :
  fetched (html_then two_cpus) (getComponents (lit "/api"))
  = [lit "/api/components"; lit "/backend_components.json"]
  /\ run (html_then two_cpus) (getComponents (lit "/api"))
     = Fulfilled two_cpus.
Proof.
  apply (getComponents_falls_back (lit "/api") (html_then two_cpus)).
  right. intro S. apply includes_iff in S. vm_compute in S. discriminate S.
Defined.

Lemma parseInt_reads_rendered_integer_witness :
  parseInt (Some (lit "650W")) = Some 650%Z.
Proof.
  apply (parseInt_reads_rendered_integer 650 (lit "W")).
  - vm_compute. discriminate.
  - split; [reflexivity|]. split; discriminate.
Defined.

Lemma getLowestPrice_eligible_offers_only_witness :
  match getLowestPrice three_offers, getLowestPrice one_offer with
  | Some p, Some p' => p == p'
  | None, None => True
  | _, _ => False
  end.
Proof.
  apply (getLowestPrice_eligible_offers_only three_offers one_offer).
  intro v. split.
  - intros [[<-|[<-|[<-|[]]]] [Hs Hp]].
    + discriminate Hs.
    + split; [now left | now split].
    + elim (Qlt_irrefl _ Hp).
  - intros [[<-|[]] [Hs Hp]].
    split; [right; now left | now split].
Defined.

Section AdvisorMoreInstances.
Import PrimFloat.

Lemma recommend_first_dearest_witness :
  exists earlier later,
    survivors three_cpus 100000%float CPU 0.25%float
    = earlier ++ ryzen :: later
    /\ (forall c, In c earlier -> number (getLowestPrice c) < 28000)
    /\ (forall c, In c later -> number (getLowestPrice c) <= 28000).
Proof.
  apply (recommend_first_dearest three_cpus 100000%float (lit "general") CPU
           0.25%float (with_lowestPrice ryzen)).
  - left. reflexivity.
  - reflexivity.
Defined.

End AdvisorMoreInstances.
